(** * The EmPOWER agent LVNF (empower/agent/lvnf.py)

    A shallow embedding of the [LVNF] class: the script builder of
    [__init__], the control-channel wrappers [read_handler] and
    [write_handler], context save and replay, the start-up probe, the
    heartbeat loop, port attach and detach, and statistics collection.

    Python objects are records, Python dictionaries whose iteration order
    is observable are insertion-ordered association lists, the agent's
    registry is a finite map.  Effects are threaded through a monad that
    carries the whole world (the instance, its agent, the state of the
    outside and the history of calls made to it) and an outcome that is
    either a value or a raised exception.  As in Python, what was mutated
    before an exception stays mutated. *)

From stdpp Require Import gmap strings list pretty.
From Stdlib Require Import ZArith Lia Ascii String.

Local Open Scope Z_scope.

(** ** Exceptions and outcomes *)

Inductive exn :=
| KeyError (key : string)
| UnboundLocalError (name : string)
| AttributeError (name : string)
| OSError (msg : string)
| ValueError (msg : string)
| UnicodeDecodeError
| TimeoutExpired
| OtherError (msg : string).

Inductive res (A : Type) :=
| Ok (a : A)
| Raise (e : exn).
Arguments Ok {A} a.
Arguments Raise {A} e.

(** ** Python values that reach the control channel

    [write_handler] dispatches on [isinstance(value, list)], and context
    entries are iterated with [for line in ...]: both a string and a list
    of strings can show up there. *)

Inductive pyval :=
| PStr (s : string)
| PList (l : list string).

(** Iterating a list yields its items, iterating a string yields its
    characters as one-character strings. *)
Fixpoint chars (s : string) : list string :=
  match s with
  | EmptyString => []
  | String c s' => String c EmptyString :: chars s'
  end.

Definition py_iter (v : pyval) : list string :=
  match v with
  | PStr s => chars s
  | PList l => l
  end.

(** ** Insertion-ordered dictionaries

    [d[k] = v] keeps the position of a key that is already there and
    appends a new one; [d[k]] and [del d[k]] fail on a missing key;
    iteration follows the list. *)

Section pydict.
Context {K V : Type} `{EqDecision K}.

Fixpoint dict_get (k : K) (d : list (K * V)) : option V :=
  match d with
  | [] => None
  | (k', v) :: d' => if decide (k = k') then Some v else dict_get k d'
  end.

Fixpoint dict_set (k : K) (v : V) (d : list (K * V)) : list (K * V) :=
  match d with
  | [] => [(k, v)]
  | (k', v') :: d' =>
      if decide (k = k') then (k, v) :: d' else (k', v') :: dict_set k v d'
  end.

Definition dict_keys (d : list (K * V)) : list K := d.*1.
End pydict.

(** ** Strings: [split], [strip], [%u] *)

(** [s.split("\n")]: the pieces between newlines, a trailing newline
    gives a last empty piece, the empty string gives one empty piece. *)
Fixpoint split_nl (s : string) : list string :=
  match s with
  | EmptyString => [EmptyString]
  | String c s' =>
      if decide (c = "010"%char) then EmptyString :: split_nl s'
      else match split_nl s' with
           | [] => [String c EmptyString]
           | p :: ps => String c p :: ps
           end
  end.

(** Characters for which [str.isspace] holds, among code points below
    256: tab to carriage return, the four separators, space, NEL and the
    no-break space. *)
Definition is_space (c : ascii) : bool :=
  let n := nat_of_ascii c in
  ((9 <=? n)%nat && (n <=? 13)%nat) || ((28 <=? n)%nat && (n <=? 32)%nat)
  || (n =? 133)%nat || (n =? 160)%nat.

Fixpoint lstrip (s : string) : string :=
  match s with
  | EmptyString => EmptyString
  | String c s' => if is_space c then lstrip s' else s
  end.

Fixpoint rstrip (s : string) : string :=
  match s with
  | EmptyString => EmptyString
  | String c s' =>
      match rstrip s' with
      | EmptyString => if is_space c then EmptyString else String c EmptyString
      | t => String c t
      end
  end.

Definition strip (s : string) : string := rstrip (lstrip s).

(** Truth value of a string: [if x]. *)
Definition truthy (s : string) : bool :=
  match s with EmptyString => false | _ => true end.

(** ["%u" % n] on an [int]: the decimal digits, with a minus sign for a
    negative number. *)
Definition fmt_u (n : Z) : string := pretty n.

(** ** Data *)

Definition ref := nat.
Definition bytes := list Byte.byte.

Record Port := {
  iface : string;
  hwaddr : option string;
  virtual_port_id : Z;
  ovs_port_id : option Z;
}.

(** The image descriptor, read-only here. *)
Record Image := {
  nb_ports : Z;
  vnf : string;
  handlers : list (string * string);
  state_handlers : list string;
}.

Record Process := {
  pid : Z;
  returncode : option Z;
}.

Record Thread := {
  signal : bool;
}.

(** What the instance reads and writes of its agent.  [agent.ports], the
    bridge inventory, is computed by the agent on every access and is
    among the collaborators below. *)
Record Agent := {
  listen : Z;
  agent_bridge : string;
  lvnfs : gmap string ref;
}.

Record LVNF := {
  self_ref : ref;
  lvnf_id : string;
  tenant_id : string;
  image : Image;
  bridge : string;
  vnf_seq : Z;
  ctrl : Z;
  script : string;
  ports : list (Z * Port);
  context : list (string * pyval);
  process : option Process;
  thread : option Thread;
}.

(** An entry of the bridge inventory. *)
Record BridgePort := {
  bp_iface : string;
  bp_port_id : Z;
}.

(** ** The history of calls

    Every call that leaves the instance is recorded with what it got
    back. *)

Inductive logarg :=
| LStr (s : string)
| LInt (n : Z)
| LNone.

Inductive target :=
| TInitLvnf (args : option (list (string * pyval)))
| THeartbeat.

Inductive event :=
| EvLog (fmt : string) (args : list logarg)
| EvReadHandler (host : string) (port : Z) (handler : string)
    (reply : res (Z * string))
| EvWriteHandler (host : string) (port : Z) (handler : string)
    (entry : string) (reply : res (Z * string))
| EvExecCmd (cmd : list string) (reply : res unit)
| EvGetHwAddr (ifname : string) (reply : res string)
| EvSendCaps (id : string) (reply : res unit)
| EvAgentPorts (reply : res (list BridgePort))
| EvPopen (args : list string) (reply : res Z)
| EvCommunicate (timeout_ms : Z) (reply : res (bytes * bytes * Z))
| EvPoll (reply : option Z)
| EvKill (reply : res unit)
| EvThreadStart (t : target)
| EvSleep (ms : Z)
| EvOpenRead (path : string) (reply : res string).

(** ** Collaborators

    [empower.agent.utils], the agent's own methods, [subprocess], [open],
    [int] and [bytes.decode] are not part of this module.  They are taken
    as an interface over an arbitrary state of the outside; each may
    raise. *)

Class Externals := {
  Env : Type;
  utils_read_handler : string → Z → string → Env → res (Z * string) * Env;
  utils_write_handler :
    string → Z → string → string → Env → res (Z * string) * Env;
  utils_exec_cmd : list string → Env → res unit * Env;
  utils_get_hw_addr : string → Env → res string * Env;
  agent_send_caps : string → Env → res unit * Env;
  agent_ports : Env → res (list BridgePort) * Env;
  subprocess_Popen : list string → Env → res Z * Env;
  (* [communicate(timeout)]: stdout, stderr and the exit code, or
     [TimeoutExpired] *)
  process_communicate : Z → Env → res (bytes * bytes * Z) * Env;
  process_poll : Env → option Z * Env;
  process_kill : Env → res unit * Env;
  time_sleep : Z → Env → Env;
  (* [open(path, 'r').read()] *)
  builtin_open_read : string → Env → res string * Env;
  builtin_int : string → res Z;
  bytes_decode : bytes → res string;
}.

(** ** [__init__], lines 48-79

    The constructor calls nothing outside: it is a function of its
    arguments and of [agent.listen]. *)

Definition nl : string := String "010" EmptyString.

(** ["vnf-%s-%u-%u" % (bridge, seq, i)] *)
Definition iface_name (bridge : string) (seq i : Z) : string :=
  "vnf-" +:+ bridge +:+ "-" +:+ fmt_u seq +:+ "-" +:+ fmt_u i.

(** [range(n)] *)
Definition range (n : Z) : list Z := seqZ 0 n.

(** The attributes as lines 50-61 leave them, then the state after each
    round of the loop at line 64. *)
Record init_state := {
  st_ports : list (Z * Port);
  st_script : string;
}.

Definition init_round (bridge : string) (vnf_seq ctrl : Z)
    (st : init_state) (i : Z) : init_state :=
  let seq := vnf_seq in
  let ifname := iface_name bridge seq i in
  let ports1 :=
    dict_set i {| iface := ifname; hwaddr := None; virtual_port_id := i;
                  ovs_port_id := None |} (st_ports st) in
  let script1 :=
    st_script st +:+ ("ControlSocket(TCP, " +:+ fmt_u ctrl +:+ ");" +:+ nl) in
  let script2 :=
    script1
    +:+ ("in_" +:+ fmt_u i +:+ " :: FromHost(" +:+ ifname +:+ ");" +:+ nl) in
  let script3 :=
    script2
    +:+ ("out_" +:+ fmt_u i +:+ " :: ToHost(" +:+ ifname +:+ ");" +:+ nl) in
  {| st_ports := ports1; st_script := script3 |}.

Definition __init__ (agent : Agent) (me : ref) (lvnf_id tenant_id : string)
    (image : Image) (bridge : string) (vnf_seq : Z) : LVNF :=
  let ctrl := listen agent + vnf_seq in
  let st := foldl (init_round bridge vnf_seq ctrl)
              {| st_ports := []; st_script := "" |} (range (nb_ports image)) in
  {| self_ref := me; lvnf_id := lvnf_id; tenant_id := tenant_id;
     image := image; bridge := bridge; vnf_seq := vnf_seq; ctrl := ctrl;
     script := st_script st +:+ vnf image;
     ports := st_ports st; context := []; process := None; thread := None |}.

Section lvnf.
Context `{X : Externals}.

Record World := {
  self : LVNF;
  agent : Agent;
  env : Env;
  trace : list event;
}.

Definition M (A : Type) : Type := World → res A * World.

Definition ret {A} (a : A) : M A := λ w, (Ok a, w).

Definition bind {A B} (m : M A) (k : A → M B) : M B :=
  λ w, match m w with
       | (Ok a, w') => k a w'
       | (Raise e, w') => (Raise e, w')
       end.

Definition raise {A} (e : exn) : M A := λ w, (Raise e, w).

(** [try: m except e: h e], where [h] says which exceptions it
    catches. *)
Definition try_except {A} (m : M A) (h : exn → option (M A)) : M A :=
  λ w, match m w with
       | (Ok a, w') => (Ok a, w')
       | (Raise e, w') =>
           match h e with
           | Some k => k w'
           | None => (Raise e, w')
           end
       end.

Definition get_self : M LVNF := λ w, (Ok (self w), w).
Definition get_agent : M Agent := λ w, (Ok (agent w), w).

Definition with_self (f : LVNF → LVNF) (w : World) : World :=
  {| self := f (self w); agent := agent w; env := env w; trace := trace w |}.
Definition with_agent (f : Agent → Agent) (w : World) : World :=
  {| self := self w; agent := f (agent w); env := env w; trace := trace w |}.
Definition with_event (e' : Env) (ev : event) (w : World) : World :=
  {| self := self w; agent := agent w; env := e'; trace := trace w ++ [ev] |}.

Definition modify_self (f : LVNF → LVNF) : M unit :=
  λ w, (Ok tt, with_self f w).
Definition modify_agent (f : Agent → Agent) : M unit :=
  λ w, (Ok tt, with_agent f w).

(** A call to a collaborator: the outside moves on, the call and its
    reply enter the history, an exception propagates. *)
Definition call {A} (f : Env → res A * Env) (ev : res A → event) : M A :=
  λ w, let '(r, e') := f (env w) in (r, with_event e' (ev r) w).

(** [logging.info(fmt, args...)] *)
Definition logging_info (fmt : string) (args : list logarg) : M unit :=
  λ w, (Ok tt, with_event (env w) (EvLog fmt args) w).

#[global] Instance M_ret : MRet M := @ret.
#[global] Instance M_bind : MBind M := λ A B k m, bind m k.

(** [for x in l: body] *)
Fixpoint for_ {A} (l : list A) (body : A → M unit) : M unit :=
  match l with
  | [] => ret tt
  | x :: l' => body x;; for_ l' body
  end.

(** A loop that updates a local variable. *)
Fixpoint for_acc {A S} (l : list A) (body : A → S → M S) (acc : S) : M S :=
  match l with
  | [] => ret acc
  | x :: l' => acc' ← body x acc; for_acc l' body acc'
  end.

(** *** Attribute updates *)

Definition set_ports (v : list (Z * Port)) (s : LVNF) : LVNF :=
  {| self_ref := self_ref s; lvnf_id := lvnf_id s; tenant_id := tenant_id s;
     image := image s; bridge := bridge s; vnf_seq := vnf_seq s;
     ctrl := ctrl s; script := script s; ports := v; context := context s;
     process := process s; thread := thread s |}.

Definition set_context (v : list (string * pyval)) (s : LVNF) : LVNF :=
  {| self_ref := self_ref s; lvnf_id := lvnf_id s; tenant_id := tenant_id s;
     image := image s; bridge := bridge s; vnf_seq := vnf_seq s;
     ctrl := ctrl s; script := script s; ports := ports s; context := v;
     process := process s; thread := thread s |}.

Definition set_process (v : option Process) (s : LVNF) : LVNF :=
  {| self_ref := self_ref s; lvnf_id := lvnf_id s; tenant_id := tenant_id s;
     image := image s; bridge := bridge s; vnf_seq := vnf_seq s;
     ctrl := ctrl s; script := script s; ports := ports s;
     context := context s; process := v; thread := thread s |}.

Definition set_thread (v : option Thread) (s : LVNF) : LVNF :=
  {| self_ref := self_ref s; lvnf_id := lvnf_id s; tenant_id := tenant_id s;
     image := image s; bridge := bridge s; vnf_seq := vnf_seq s;
     ctrl := ctrl s; script := script s; ports := ports s;
     context := context s; process := process s; thread := v |}.

Definition set_lvnfs (f : gmap string ref → gmap string ref) (a : Agent)
  : Agent :=
  {| listen := listen a; agent_bridge := agent_bridge a;
     lvnfs := f (lvnfs a) |}.

Definition set_hwaddr (v : option string) (p : Port) : Port :=
  {| iface := iface p; hwaddr := v; virtual_port_id := virtual_port_id p;
     ovs_port_id := ovs_port_id p |}.

Definition set_ovs_port_id (v : option Z) (p : Port) : Port :=
  {| iface := iface p; hwaddr := hwaddr p;
     virtual_port_id := virtual_port_id p; ovs_port_id := v |}.

(** *** [read_handler], lines 81-90 *)

Definition localhost : string := "127.0.0.1".

(** [[x.strip() for x in body.split("\n") if x and x != ""]] *)
Definition body_lines (body : string) : list string :=
  strip <$> List.filter (λ x, truthy x && negb (x =? ""))%string
              (split_nl body).

Definition read_handler (handler : string) : M (Z * pyval) :=
  s ← get_self;
  value ← call (utils_read_handler localhost (ctrl s) handler)
               (EvReadHandler localhost (ctrl s) handler);
  if decide (value.1 = 200) then
    let out := body_lines value.2 in
    ret (200, PList out)
  else
    ret (value.1, PStr value.2).

(** *** [write_handler], lines 92-107 *)

(** The loop of lines 97-102.  [retv] is the local variable [ret], not
    bound before the first iteration. *)
Fixpoint write_entries (handler : string) (value : list string)
    (retv : option (Z * string)) : M (Z * string) :=
  match value with
  | [] =>
      match retv with
      | Some r => ret (r.1, r.2)
      | None => raise (UnboundLocalError "ret")
      end
  | entry :: value' =>
      s ← get_self;
      r ← call (utils_write_handler localhost (ctrl s) handler entry)
               (EvWriteHandler localhost (ctrl s) handler entry);
      if decide (r.1 ≠ 200) then ret (r.1, r.2)
      else write_entries handler value' (Some r)
  end.

Definition write_handler (handler : string) (value : pyval)
  : M (Z * string) :=
  match value with
  | PList entries => write_entries handler entries None
  | PStr v =>
      s ← get_self;
      r ← call (utils_write_handler localhost (ctrl s) handler v)
               (EvWriteHandler localhost (ctrl s) handler v);
      ret (r.1, r.2)
  end.

(** *** [__set_context], lines 109-117 *)

(** [self.image.handlers[handler]] *)
Definition handlers_getitem (handler : string) : M string :=
  s ← get_self;
  match dict_get handler (handlers (image s)) with
  | Some name => ret name
  | None => raise (KeyError handler)
  end.

(** [not context] *)
Definition falsy_context (context : option (list (string * pyval))) : bool :=
  match context with
  | None => true
  | Some [] => true
  | Some (_ :: _) => false
  end.

Definition ctx_getitem (context : list (string * pyval)) (handler : string)
  : M pyval :=
  match dict_get handler context with
  | Some v => ret v
  | None => raise (KeyError handler)
  end.

Definition __set_context (context : option (list (string * pyval)))
  : M unit :=
  if falsy_context context then ret tt
  else
    let context := default [] context in
    for_ (dict_keys context) (λ handler,
      handler_name ← handlers_getitem handler;
      lines ← ctx_getitem context handler;
      for_ (py_iter lines) (λ line,
        write_handler handler_name (PStr line);; ret tt)).

(** *** [add_ifaces], lines 234-260 *)

(** [self.ports[k]] *)
Definition ports_getitem (k : Z) : M Port :=
  s ← get_self;
  match dict_get k (ports s) with
  | Some p => ret p
  | None => raise (KeyError (pretty k))
  end.

(** [self.ports[k][field] = v] *)
Definition ports_update (k : Z) (f : Port → Port) : M unit :=
  p ← ports_getitem k;
  modify_self (λ s, set_ports (dict_set k (f p) (ports s)) s).

(** The scan of lines 247-251: the first inventory entry with that
    interface name. *)
Fixpoint find_ovs_port (ifname : string) (l : list BridgePort) : option Z :=
  match l with
  | [] => None
  | port :: l' =>
      if decide (bp_iface port = ifname) then Some (bp_port_id port)
      else find_ovs_port ifname l'
  end.

Definition log_int (o : option Z) : logarg :=
  match o with Some n => LInt n | None => LNone end.

(** [str(x)] for an [int] or [None] *)
Definition str_opt (o : option Z) : string :=
  match o with Some n => pretty n | None => "None" end.

Definition add_ifaces : M unit :=
  s ← get_self;
  for_ (dict_keys (ports s)) (λ virtual_port_id,
    p ← ports_getitem virtual_port_id;
    let ifname := iface p in
    a ← get_agent;
    logging_info "Adding virtual port %u (%s) to bridge %s"
      [LInt virtual_port_id; LStr ifname; LStr (agent_bridge a)];;
    call (utils_exec_cmd ["ifconfig"; ifname; "up"])
         (EvExecCmd ["ifconfig"; ifname; "up"]);;
    a ← get_agent;
    call (utils_exec_cmd ["ovs-vsctl"; "add-port"; agent_bridge a; ifname])
         (EvExecCmd ["ovs-vsctl"; "add-port"; agent_bridge a; ifname]);;
    inventory ← call agent_ports EvAgentPorts;
    let ovs := find_ovs_port ifname inventory in
    a ← get_agent;
    logging_info "Disabling flooding on port %u on bridge %s"
      [log_int ovs; LStr (agent_bridge a)];;
    a ← get_agent;
    call (utils_exec_cmd
            ["ovs-ofctl"; "mod-port"; agent_bridge a; str_opt ovs; "no-flood"])
         (EvExecCmd
            ["ovs-ofctl"; "mod-port"; agent_bridge a; str_opt ovs; "no-flood"]);;
    hw ← call (utils_get_hw_addr ifname) (EvGetHwAddr ifname);
    ports_update virtual_port_id (set_hwaddr (Some hw));;
    ports_update virtual_port_id (set_ovs_port_id ovs)).

(** *** [remove_ifaces], lines 262-277 *)

Definition catch_OSError (k : M unit) (e : exn) : option (M unit) :=
  match e with
  | OSError _ => Some k
  | _ => None
  end.

Definition remove_ifaces : M unit :=
  s ← get_self;
  for_ (dict_keys (ports s)) (λ virtual_port_id,
    p ← ports_getitem virtual_port_id;
    let ifname := iface p in
    a ← get_agent;
    logging_info "Removing virtual port %u (%s) from bridge %s"
      [LInt virtual_port_id; LStr ifname; LStr (agent_bridge a)];;
    try_except
      (a ← get_agent;
       call (utils_exec_cmd ["ovs-vsctl"; "del-port"; agent_bridge a; ifname])
            (EvExecCmd ["ovs-vsctl"; "del-port"; agent_bridge a; ifname]))
      (catch_OSError
         (logging_info "Unable to remove port %s" [LStr ifname])));;
  modify_self (set_ports []).

(** *** The child process *)

Definition get_process (attr : string) : M Process :=
  s ← get_self;
  match process s with
  | Some p => ret p
  | None => raise (AttributeError attr)
  end.

(** [self.process.communicate(timeout)]: on return the exit code is
    known; one already recorded is kept. *)
Definition communicate (timeout_ms : Z) : M (bytes * bytes) :=
  p ← get_process "communicate";
  r ← call (process_communicate timeout_ms) (EvCommunicate timeout_ms);
  let rc := match returncode p with Some c => c | None => r.2 end in
  modify_self (set_process (Some {| pid := pid p; returncode := Some rc |}));;
  ret r.1.

(** [self.process.poll()]: asks the system unless the exit code is
    already recorded. *)
Definition poll : M unit :=
  p ← get_process "poll";
  match returncode p with
  | Some _ => ret tt
  | None =>
      λ w, let '(rc, e') := process_poll (env w) in
           (Ok tt,
            with_self (set_process (Some {| pid := pid p; returncode := rc |}))
              (with_event e' (EvPoll rc) w))
  end.

Definition kill : M unit :=
  _ ← get_process "kill";
  call process_kill EvKill.

Definition sleep (ms : Z) : M unit :=
  λ w, (Ok tt, with_event (time_sleep ms (env w)) (EvSleep ms) w).

Definition send_caps : M unit :=
  s ← get_self;
  call (agent_send_caps (lvnf_id s)) (EvSendCaps (lvnf_id s)).

(** [del self.agent.lvnfs[self.lvnf_id]] *)
Definition del_lvnf : M unit :=
  s ← get_self;
  a ← get_agent;
  match lvnfs a !! lvnf_id s with
  | Some _ => modify_agent (set_lvnfs (delete (lvnf_id s)))
  | None => raise (KeyError (lvnf_id s))
  end.

Definition decode (b : bytes) : M string :=
  match bytes_decode b with
  | Ok t => ret t
  | Raise e => raise e
  end.

Definition catch_TimeoutExpired {A} (k : M A) (e : exn) : option (M A) :=
  match e with
  | TimeoutExpired => Some k
  | _ => None
  end.

(** *** [init_lvnf], lines 119-158 *)

Definition start_thread (t : target) : M unit :=
  λ w, (Ok tt, with_event (env w) (EvThreadStart t) w).

Definition init_lvnf (context : option (list (string * pyval))) : M unit :=
  s ← get_self;
  logging_info "Starting LVNF %s." [LStr (lvnf_id s)];;
  probe ← try_except (r ← communicate 1000; ret (Some r))
                     (catch_TimeoutExpired (ret None));
  match probe with
  | None =>
      s ← get_self;
      p ← get_process "pid";
      logging_info "LVNF %s is running pid %u"
        [LStr (lvnf_id s); LInt (pid p)];;
      __set_context context;;
      add_ifaces;;
      send_caps;;
      modify_self (set_thread (Some {| signal := true |}));;
      start_thread THeartbeat
  | Some (_, errs) =>
      s ← get_self;
      p ← get_process "returncode";
      logging_info "LVNF %s terminated with code %u"
        [LStr (lvnf_id s); log_int (returncode p)];;
      msg ← decode errs;
      logging_info ("LVNF error: " +:+ nl +:+ "%s") [LStr msg];;
      send_caps;;
      del_lvnf
  end.

(** *** [heartbeat], lines 160-193

    The loop runs for as long as the process lives; [fuel] bounds the
    number of iterations, and [None] is returned when it is used up with
    the loop still running. *)

(** Lines 169-189: what the loop does once the exit code is known. *)
Definition on_exit : M unit :=
  r ← try_except (communicate 500)
                 (catch_TimeoutExpired (kill;; communicate 500));
  let errs := r.2 in
  s ← get_self;
  p ← get_process "returncode";
  logging_info "LVNF %s terminated with code %u"
    [LStr (lvnf_id s); log_int (returncode p)];;
  msg ← decode errs;
  (if truthy msg then
     msg' ← decode errs;
     logging_info "LVNF error: %s" [LStr msg']
   else ret tt);;
  send_caps;;
  del_lvnf;;
  s ← get_self;
  logging_info "LVNF %s stopped" [LStr (lvnf_id s)].

Fixpoint heartbeat (fuel : nat) : M (option unit) :=
  match fuel with
  | O => ret None
  | S fuel' =>
      s ← get_self;
      match thread s with
      | None => raise (AttributeError "signal")
      | Some t =>
          if signal t then
            poll;;
            p ← get_process "returncode";
            match returncode p with
            | Some _ => on_exit;; ret (Some tt)
            | None => sleep 2000;; heartbeat fuel'
            end
          else
            s ← get_self;
            logging_info "Terminating LVNF %s heartbeat" [LStr (lvnf_id s)];;
            ret (Some tt)
      end
  end.

(** *** [__str__], lines 322-327 *)

Fixpoint join (sep : string) (l : list string) : string :=
  match l with
  | [] => ""
  | [x] => x
  | x :: l' => x +:+ sep +:+ join sep l'
  end.

Definition __str__ (s : LVNF) : string :=
  "LVNF " +:+ lvnf_id s +:+ " (ports=["
  +:+ join "," (pretty <$> dict_keys (ports s)) +:+ "])" +:+ nl
  +:+ strip (script s).

(** *** [start], lines 195-214 *)

Definition click_args (s : LVNF) : list string :=
  ["/usr/local/bin/click"; "-e"; script s].

(** Lines 209-212: the arguments handed to the thread. *)
Definition thread_args (context : option (list (string * pyval)))
  : option (list (string * pyval)) :=
  if falsy_context context then None else context.

Definition start (context : option (list (string * pyval))) : M unit :=
  s ← get_self;
  logging_info "Starting LVNF %s" [LStr (lvnf_id s)];;
  logging_info "%s" [LStr (__str__ s)];;
  modify_agent (set_lvnfs (insert (lvnf_id s) (self_ref s)));;
  s ← get_self;
  child ← call (subprocess_Popen (click_args s)) (EvPopen (click_args s));
  modify_self (set_process (Some {| pid := child; returncode := None |}));;
  let args := thread_args context in
  start_thread (TInitLvnf args).

(** *** [stop], lines 216-232 *)

(** Lines 227-229, one round of the loop. *)
Definition save_handler (handler : string) : M unit :=
  path ← handlers_getitem handler;
  r ← read_handler path;
  if decide (r.1 = 200) then
    modify_self (λ s, set_context (dict_set handler r.2 (context s)) s)
  else ret tt.

Definition stop : M unit :=
  s ← get_self;
  logging_info "Stopping LVNF %s" [LStr (lvnf_id s)];;
  remove_ifaces;;
  modify_self (set_context []);;
  s ← get_self;
  for_ (state_handlers (image s)) save_handler;;
  kill.

(** *** [stats], lines 279-300 *)

Definition fields : list string :=
  ["tx_packets"; "rx_packets"; "tx_bytes"; "rx_bytes"].

Definition stats_path (ifname field : string) : string :=
  "/sys/class/net/" +:+ ifname +:+ "/statistics/" +:+ field.

Definition to_int (t : string) : M Z :=
  match builtin_int t with
  | Ok n => ret n
  | Raise e => raise e
  end.

(** [out[ifname][field] = v] *)
Definition out_setitem (ifname field : string) (v : Z)
    (out : list (string * list (string * Z)))
  : M (list (string * list (string * Z))) :=
  match dict_get ifname out with
  | Some counters => ret (dict_set ifname (dict_set field v counters) out)
  | None => raise (KeyError ifname)
  end.

(** Lines 296-298, one round of the inner loop. *)
Definition stats_field (port : Z) (ifname field : string)
    (out : list (string * list (string * Z)))
  : M (list (string * list (string * Z))) :=
  p ← ports_getitem port;
  let full_path := stats_path (iface p) field in
  text ← call (builtin_open_read full_path) (EvOpenRead full_path);
  n ← to_int text;
  out_setitem ifname field n out.

(** Lines 293-298, one round of the outer loop. *)
Definition stats_port (port : Z) (out : list (string * list (string * Z)))
  : M (list (string * list (string * Z))) :=
  p ← ports_getitem port;
  let ifname := iface p in
  let out := dict_set ifname [] out in
  for_acc fields (stats_field port ifname) out.

Definition stats : M (list (string * list (string * Z))) :=
  s ← get_self;
  for_acc (dict_keys (ports s)) stats_port [].

(** *** The operations of an instance

    Every method that assigns to an attribute or calls a collaborator.
    [to_dict], [__eq__] and [__str__] only read. *)

Inductive op :=
| OpReadHandler (handler : string)
| OpWriteHandler (handler : string) (value : pyval)
| OpSetContext (context : option (list (string * pyval)))
| OpInitLvnf (context : option (list (string * pyval)))
| OpHeartbeat (fuel : nat)
| OpStart (context : option (list (string * pyval)))
| OpStop
| OpAddIfaces
| OpRemoveIfaces
| OpStats.

Definition run_op (o : op) (w : World) : World :=
  match o with
  | OpReadHandler handler => (read_handler handler w).2
  | OpWriteHandler handler value => (write_handler handler value w).2
  | OpSetContext context => (__set_context context w).2
  | OpInitLvnf context => (init_lvnf context w).2
  | OpHeartbeat fuel => (heartbeat fuel w).2
  | OpStart context => (start context w).2
  | OpStop => (stop w).2
  | OpAddIfaces => (add_ifaces w).2
  | OpRemoveIfaces => (remove_ifaces w).2
  | OpStats => (stats w).2
  end.

Definition run_ops (l : list op) (w : World) : World :=
  foldl (λ w o, run_op o w) w l.

End lvnf.

Arguments World : clear implicits.
Arguments M : clear implicits.

(** ** The remaining methods *)

(** *** [to_dict], lines 302-315

    [image.to_dict()] belongs to the image class; it is taken as a
    parameter.  The snapshot reads [self.process.returncode], which fails
    on an instance that has no process yet. *)

Record Snapshot (I : Type) := {
  d_lvnf_id : string;
  d_tenant_id : string;
  d_image : I;
  d_vnf_seq : Z;
  d_ctrl : Z;
  d_script : string;
  d_ports : list (Z * Port);
  d_context : list (string * pyval);
  d_returncode : option Z;
}.
Arguments d_lvnf_id {I} _.
Arguments d_tenant_id {I} _.
Arguments d_image {I} _.
Arguments d_vnf_seq {I} _.
Arguments d_ctrl {I} _.
Arguments d_script {I} _.
Arguments d_ports {I} _.
Arguments d_context {I} _.
Arguments d_returncode {I} _.

Definition to_dict `{X : Externals} {I} (image_to_dict : Image → I)
  : M X (Snapshot I) :=
  s ← get_self;
  let img := image_to_dict (image s) in
  p ← get_process "returncode";
  mret {| d_lvnf_id := lvnf_id s; d_tenant_id := tenant_id s; d_image := img;
          d_vnf_seq := vnf_seq s; d_ctrl := ctrl s; d_script := script s;
          d_ports := ports s; d_context := context s;
          d_returncode := returncode p |}.

(** *** [__eq__], lines 317-320 *)



(** *** The rounds of the attach and detach loops

    The bodies of the loops of [add_ifaces] (lines 239-260) and
    [remove_ifaces] (lines 267-275), named so that they can be spoken
    about; [add_ifaces] and [remove_ifaces] are these bodies run over the
    keys of the port table. *)

Definition attach_port `{X : Externals} (virtual_port_id : Z) : M X unit :=
  p ← ports_getitem virtual_port_id;
  let ifname := iface p in
  a ← get_agent;
  logging_info "Adding virtual port %u (%s) to bridge %s"
    [LInt virtual_port_id; LStr ifname; LStr (agent_bridge a)];;
  call (utils_exec_cmd ["ifconfig"; ifname; "up"])
       (EvExecCmd ["ifconfig"; ifname; "up"]);;
  a ← get_agent;
  call (utils_exec_cmd ["ovs-vsctl"; "add-port"; agent_bridge a; ifname])
       (EvExecCmd ["ovs-vsctl"; "add-port"; agent_bridge a; ifname]);;
  inventory ← call agent_ports EvAgentPorts;
  let ovs := find_ovs_port ifname inventory in
  a ← get_agent;
  logging_info "Disabling flooding on port %u on bridge %s"
    [log_int ovs; LStr (agent_bridge a)];;
  a ← get_agent;
  call (utils_exec_cmd
          ["ovs-ofctl"; "mod-port"; agent_bridge a; str_opt ovs; "no-flood"])
       (EvExecCmd
          ["ovs-ofctl"; "mod-port"; agent_bridge a; str_opt ovs; "no-flood"]);;
  hw ← call (utils_get_hw_addr ifname) (EvGetHwAddr ifname);
  ports_update virtual_port_id (set_hwaddr (Some hw));;
  ports_update virtual_port_id (set_ovs_port_id ovs).

Definition detach_port `{X : Externals} (virtual_port_id : Z) : M X unit :=
  p ← ports_getitem virtual_port_id;
  let ifname := iface p in
  a ← get_agent;
  logging_info "Removing virtual port %u (%s) from bridge %s"
    [LInt virtual_port_id; LStr ifname; LStr (agent_bridge a)];;
  try_except
    (a ← get_agent;
     call (utils_exec_cmd ["ovs-vsctl"; "del-port"; agent_bridge a; ifname])
          (EvExecCmd ["ovs-vsctl"; "del-port"; agent_bridge a; ifname]))
    (catch_OSError
       (logging_info "Unable to remove port %s" [LStr ifname])).

(** ** A scripted outside

    An instance of the collaborators for running the model on concrete
    inputs: every collaborator answers from its own queue of prepared
    replies and falls back to a fixed answer when the queue is empty. *)

Record Script := {
  sc_reads : list (res (Z * string));
  sc_writes : list (res (Z * string));
  sc_execs : list (res unit);
  sc_caps : list (res unit);
  sc_communicate : list (res (bytes * bytes * Z));
  sc_polls : list (option Z);
  sc_inventory : list BridgePort;
  sc_files : list (string * string);
}.

Definition pop {A} (d : A) (q : list A) : A * list A :=
  match q with
  | [] => (d, [])
  | x :: q' => (x, q')
  end.

Definition digit_of (c : ascii) : option Z :=
  let n := nat_of_ascii c in
  if ((48 <=? n)%nat && (n <=? 57)%nat)%bool then Some (Z.of_nat n - 48)
  else None.

Fixpoint digits_value (acc : Z) (s : string) : option Z :=
  match s with
  | EmptyString => Some acc
  | String c s' =>
      match digit_of c with
      | Some d => digits_value (10 * acc + d) s'
      | None => None
      end
  end.

(** Decimal digits, with white space around them allowed: the texts a
    counter file holds. *)
Definition int_of_digits (t : string) : res Z :=
  match strip t with
  | EmptyString => Raise (ValueError "invalid literal for int()")
  | u => match digits_value 0 u with
         | Some n => Ok n
         | None => Raise (ValueError "invalid literal for int()")
         end
  end.

(** Bytes below 128 decode to themselves; anything else is refused. *)
Fixpoint decode_ascii (b : bytes) : res string :=
  match b with
  | [] => Ok EmptyString
  | c :: b' =>
      if (Byte.to_nat c <? 128)%nat then
        match decode_ascii b' with
        | Ok t => Ok (String (ascii_of_nat (Byte.to_nat c)) t)
        | Raise e => Raise e
        end
      else Raise UnicodeDecodeError
  end.

Definition set_sc_reads (q : list (res (Z * string))) (e : Script) : Script :=
  {| sc_reads := q; sc_writes := sc_writes e; sc_execs := sc_execs e;
     sc_caps := sc_caps e; sc_communicate := sc_communicate e;
     sc_polls := sc_polls e; sc_inventory := sc_inventory e;
     sc_files := sc_files e |}.

Definition set_sc_writes (q : list (res (Z * string))) (e : Script) : Script :=
  {| sc_reads := sc_reads e; sc_writes := q; sc_execs := sc_execs e;
     sc_caps := sc_caps e; sc_communicate := sc_communicate e;
     sc_polls := sc_polls e; sc_inventory := sc_inventory e;
     sc_files := sc_files e |}.

Definition set_sc_execs (q : list (res unit)) (e : Script) : Script :=
  {| sc_reads := sc_reads e; sc_writes := sc_writes e; sc_execs := q;
     sc_caps := sc_caps e; sc_communicate := sc_communicate e;
     sc_polls := sc_polls e; sc_inventory := sc_inventory e;
     sc_files := sc_files e |}.

Definition set_sc_caps (q : list (res unit)) (e : Script) : Script :=
  {| sc_reads := sc_reads e; sc_writes := sc_writes e; sc_execs := sc_execs e;
     sc_caps := q; sc_communicate := sc_communicate e;
     sc_polls := sc_polls e; sc_inventory := sc_inventory e;
     sc_files := sc_files e |}.

Definition set_sc_communicate (q : list (res (bytes * bytes * Z)))
    (e : Script) : Script :=
  {| sc_reads := sc_reads e; sc_writes := sc_writes e; sc_execs := sc_execs e;
     sc_caps := sc_caps e; sc_communicate := q;
     sc_polls := sc_polls e; sc_inventory := sc_inventory e;
     sc_files := sc_files e |}.

Definition set_sc_polls (q : list (option Z)) (e : Script) : Script :=
  {| sc_reads := sc_reads e; sc_writes := sc_writes e; sc_execs := sc_execs e;
     sc_caps := sc_caps e; sc_communicate := sc_communicate e;
     sc_polls := q; sc_inventory := sc_inventory e;
     sc_files := sc_files e |}.

#[global] Instance Scripted : Externals := {|
  Env := Script;
  utils_read_handler _ _ _ e :=
    let '(r, q) := pop (Ok (200, "")) (sc_reads e) in (r, set_sc_reads q e);
  utils_write_handler _ _ _ _ e :=
    let '(r, q) := pop (Ok (200, "OK")) (sc_writes e) in (r, set_sc_writes q e);
  utils_exec_cmd _ e :=
    let '(r, q) := pop (Ok tt) (sc_execs e) in (r, set_sc_execs q e);
  utils_get_hw_addr _ e := (Ok "00:00:00:00:00:01", e);
  agent_send_caps _ e :=
    let '(r, q) := pop (Ok tt) (sc_caps e) in (r, set_sc_caps q e);
  agent_ports e := (Ok (sc_inventory e), e);
  subprocess_Popen _ e := (Ok 4242, e);
  process_communicate _ e :=
    let '(r, q) := pop (Raise TimeoutExpired) (sc_communicate e) in
    (r, set_sc_communicate q e);
  process_poll e :=
    let '(r, q) := pop None (sc_polls e) in (r, set_sc_polls q e);
  process_kill e := (Ok tt, e);
  time_sleep _ e := e;
  builtin_open_read path e :=
    match dict_get path (sc_files e) with
    | Some t => (Ok t, e)
    | None => (Raise (OSError "No such file or directory"), e)
    end;
  builtin_int := int_of_digits;
  bytes_decode := decode_ascii;
|}.

Definition quiet : Script :=
  {| sc_reads := []; sc_writes := []; sc_execs := []; sc_caps := [];
     sc_communicate := []; sc_polls := []; sc_inventory := [];
     sc_files := [] |}.

(** Scenario 1 of the specification: two ports on bridge [br0], sequence
    number 3, listen base 10000. *)
Definition node : Agent :=
  {| listen := 10000; agent_bridge := "br0"; lvnfs := ∅ |}.

Definition img : Image :=
  {| nb_ports := 2; vnf := "in_0 -> out_1; in_1 -> out_0;";
     handlers := [("counters", "cnt.count"); ("table", "nat.table")];
     state_handlers := ["counters"; "table"] |}.

Definition lvnf0 : LVNF := __init__ node 1%nat "lvnf-a" "tenant-a" img "br0" 3.

Definition world0 (e : Script) : World Scripted :=
  {| self := lvnf0; agent := node; env := e; trace := [] |}.

(** The life of an instance used below: started, found running, stopped,
    started again and found running again. *)
Definition stop_and_restart : list op :=
  [OpStart None; OpInitLvnf None; OpStop; OpStart None; OpInitLvnf None].

(** A child that dies at once with exit code 1 and [boom] on its error
    output; a child that is found running and is later found killed. *)
Definition boom : bytes := [Byte.x62; Byte.x6f; Byte.x6f; Byte.x6d].



(** Counter files for the two interfaces of [lvnf0]. *)
Definition counter_files : list (string * string) :=
  [("/sys/class/net/vnf-br0-3-0/statistics/tx_packets", "10" +:+ nl);
   ("/sys/class/net/vnf-br0-3-0/statistics/rx_packets", "11" +:+ nl);
   ("/sys/class/net/vnf-br0-3-0/statistics/tx_bytes", "1200" +:+ nl);
   ("/sys/class/net/vnf-br0-3-0/statistics/rx_bytes", "1300" +:+ nl);
   ("/sys/class/net/vnf-br0-3-1/statistics/tx_packets", "20" +:+ nl);
   ("/sys/class/net/vnf-br0-3-1/statistics/rx_packets", "21" +:+ nl);
   ("/sys/class/net/vnf-br0-3-1/statistics/tx_bytes", "2200" +:+ nl);
   ("/sys/class/net/vnf-br0-3-1/statistics/rx_bytes", "2300" +:+ nl)].

Definition counting : Script :=
  {| sc_reads := []; sc_writes := []; sc_execs := []; sc_caps := [];
     sc_communicate := []; sc_polls := []; sc_inventory := [];
     sc_files := counter_files |}.

Definition counted : list (string * list (string * Z)) :=
  [("vnf-br0-3-0",
    [("tx_packets", 10); ("rx_packets", 11); ("tx_bytes", 1200);
     ("rx_bytes", 1300)]);
   ("vnf-br0-3-1",
    [("tx_packets", 20); ("rx_packets", 21); ("tx_bytes", 2200);
     ("rx_bytes", 2300)])].

(** Scenario 4 of the specification: a running instance whose first
    stateful handler answers with two lines and whose second one answers
    with status 500. *)
Definition answering : Script :=
  set_sc_reads [Ok (200, "x=1" +:+ nl +:+ "y=2"); Ok (500, "no such handler")]
    quiet.

Definition running : World Scripted :=
  run_ops [OpStart None; OpInitLvnf None] (world0 answering).

(** A node on which the Click binary cannot be launched: as [Scripted],
    but [subprocess.Popen] raises. *)
Definition Unlaunchable : Externals := {|
  Env := Script;
  utils_read_handler := @utils_read_handler Scripted;
  utils_write_handler := @utils_write_handler Scripted;
  utils_exec_cmd := @utils_exec_cmd Scripted;
  utils_get_hw_addr := @utils_get_hw_addr Scripted;
  agent_send_caps := @agent_send_caps Scripted;
  agent_ports := @agent_ports Scripted;
  subprocess_Popen _ e := (Raise (OSError "click: not found"), e);
  process_communicate := @process_communicate Scripted;
  process_poll := @process_poll Scripted;
  process_kill := @process_kill Scripted;
  time_sleep := @time_sleep Scripted;
  builtin_open_read := @builtin_open_read Scripted;
  builtin_int := @builtin_int Scripted;
  bytes_decode := @bytes_decode Scripted;
|}.

Definition stranded : World Unlaunchable :=
  @Build_World Unlaunchable lvnf0 node quiet [].

(** A child that is found running, is still alive at the first poll of
    the heartbeat and is found dead at the second; a child that is found
    dead but whose pipes never drain. *)
Definition lingering : Script :=
  set_sc_polls [None; Some (-9)]
    (set_sc_communicate [Raise TimeoutExpired; Ok ([], boom, -9)] quiet).

Definition hanging : Script := set_sc_polls [Some (-9)] quiet.

(** A counter file that holds no number. *)
Definition garbled : Script :=
  {| sc_reads := []; sc_writes := []; sc_execs := []; sc_caps := [];
     sc_communicate := []; sc_polls := []; sc_inventory := [];
     sc_files :=
       [("/sys/class/net/vnf-br0-3-0/statistics/tx_packets", "n/a")] |}.

(** A bridge that lists the two interfaces of [lvnf0] after another one. *)
Definition plugged : Script :=
  {| sc_reads := []; sc_writes := []; sc_execs := []; sc_caps := [];
     sc_communicate := []; sc_polls := [];
     sc_inventory :=
       [{| bp_iface := "eth0"; bp_port_id := 1 |};
        {| bp_iface := "vnf-br0-3-0"; bp_port_id := 7 |};
        {| bp_iface := "vnf-br0-3-1"; bp_port_id := 8 |}];
     sc_files := [] |}.

(** ** Vocabulary of the statements *)

(** The history entries of [entries] written in order to [handler] on
    control port [port], with the replies they got. *)
Definition writes_of (port : Z) (handler : string) (entries : list string)
    (replies : list (res (Z * string))) : list event :=
  zip_with (EvWriteHandler localhost port handler) entries replies.

(** A reply with status 200. *)
Definition is_200 (r : res (Z * string)) : Prop :=
  ∃ msg, r = Ok (200, msg).

(** The specification's words for a successful read: the body split
    into trimmed lines, the empty ones left out. *)
Definition spec_lines (body : string) : list string :=
  filter (λ x, x ≠ "") (strip <$> split_nl body).

(** The specification's words for the script: for each port index the
    control-socket declaration and the two adapters on the interface
    [vnf-<bridge>-<seq>-<i>], then the body of the image. *)
Definition spec_port_block (ctrl : Z) (bridge : string) (seq i : Z) : string :=
  "ControlSocket(TCP, " +:+ fmt_u ctrl +:+ ");" +:+ nl
  +:+ "in_" +:+ fmt_u i +:+ " :: FromHost(vnf-" +:+ bridge +:+ "-"
  +:+ fmt_u seq +:+ "-" +:+ fmt_u i +:+ ");" +:+ nl
  +:+ "out_" +:+ fmt_u i +:+ " :: ToHost(vnf-" +:+ bridge +:+ "-"
  +:+ fmt_u seq +:+ "-" +:+ fmt_u i +:+ ");" +:+ nl.

Fixpoint concat_str (l : list string) : string :=
  match l with
  | [] => ""
  | x :: l' => x +:+ concat_str l'
  end.

Definition spec_script (ctrl : Z) (port_count : Z) (body bridge : string)
    (seq : Z) : string :=
  concat_str (spec_port_block ctrl bridge seq <$> seqZ 0 port_count) +:+ body.

(** The kinds of history entries. *)
Inductive kind :=
| KLog | KRead | KWrite | KExec | KHwAddr | KCaps | KInventory | KPopen
| KCommunicate | KPoll | KKill | KThread | KSleep | KOpen.

Definition kind_of (ev : event) : kind :=
  match ev with
  | EvLog _ _ => KLog
  | EvReadHandler _ _ _ _ => KRead
  | EvWriteHandler _ _ _ _ _ => KWrite
  | EvExecCmd _ _ => KExec
  | EvGetHwAddr _ _ => KHwAddr
  | EvSendCaps _ _ => KCaps
  | EvAgentPorts _ => KInventory
  | EvPopen _ _ => KPopen
  | EvCommunicate _ _ => KCommunicate
  | EvPoll _ => KPoll
  | EvKill _ => KKill
  | EvThreadStart _ => KThread
  | EvSleep _ => KSleep
  | EvOpenRead _ _ => KOpen
  end.

(** A computation maintains a relation between the world before and
    after it, whatever its outcome. *)
Definition maintains `{X : Externals} (R : World X → World X → Prop) {A}
    (m : M X A) : Prop :=
  ∀ w, R w (m w).2.

(** The interface name recorded for a virtual-port index, if there is a
    record. *)
Definition port_iface (i : Z) (s : LVNF) : option string :=
  iface <$> dict_get i (ports s).

(** The port record lines 69-72 store for index [i]. *)
Definition new_port (bridge : string) (seq i : Z) : Z * Port :=
  (i, {| iface := iface_name bridge seq i; hwaddr := None;
         virtual_port_id := i; ovs_port_id := None |}).



(** What every part of [stats] does to the world: the instance is left
    alone, the history grows, and a counter file that could not be read
    ends the computation with that error. *)
Definition reads_or_fails `{X : Externals} {A} (w w' : World X)
    (r : res A) : Prop :=
  self w' = self w
  ∧ ∃ evs, trace w' = trace w ++ evs
           ∧ ∀ path e, EvOpenRead path (Raise e) ∈ evs → r = Raise e.

(** The keys of a dictionary after [d[k] = v]. *)
Definition add_key (ks : list string) (k : string) : list string :=
  if decide (k ∈ ks) then ks else ks ++ [k].

(** What [stats] promises of its result: one entry per interface name,
    each with exactly the four counters. *)
Definition well_formed_stats (out : list (string * list (string * Z)))
  : Prop :=
  NoDup (dict_keys out) ∧ ∀ n cs, (n, cs) ∈ out → dict_keys cs = fields.

(** The reads and the writes on the control channel that a history
    holds, in order: the handler path and the reply of each read; the
    port, handler path and entry of each write. *)
Definition read_of (ev : event) : option (string * res (Z * string)) :=
  match ev with
  | EvReadHandler _ _ handler reply => Some (handler, reply)
  | _ => None
  end.

Definition write_of (ev : event) : option (Z * string * string) :=
  match ev with
  | EvWriteHandler _ port handler entry _ => Some (port, handler, entry)
  | _ => None
  end.

Definition reads_in (tr : list event) : list (string * res (Z * string)) :=
  omap read_of tr.

Definition writes_in (tr : list event) : list (Z * string * string) :=
  omap write_of tr.

(** The context that a sequence of reads leaves: for each handler whose
    read was answered with status 200, the lines of the answer; the
    others are absent. *)
Definition captured (l : list (string * (Z * string)))
  : list (string * pyval) :=
  omap (λ '(handler, (st, body)),
          if decide (st = 200) then Some (handler, PList (body_lines body))
          else None) l.

(** The writes that replaying a context amounts to: every line of every
    handler, in the order of the context, to the handler's path. *)
Definition replay_writes (port : Z) (paths : list (string * string))
    (ctx : list (string * pyval)) : list (Z * string * string) :=
  ctx ≫= λ '(handler, v),
    match dict_get handler paths with
    | Some path => (λ line, (port, path, line)) <$> py_iter v
    | None => []
    end.

Definition other_than_write (k : kind) : bool :=
  match k with KWrite => false | _ => true end.

Definition other_than_read (k : kind) : bool :=
  match k with KRead => false | _ => true end.

(** The lines that a sequence of reads returned with status 200, each
    with the handler path it was read from. *)
Definition lines_read (l : list (string * res (Z * string)))
  : list (string * string) :=
  l ≫= λ '(path, r),
    match r with
    | Ok (st, body) =>
        if decide (st = 200) then (λ line, (path, line)) <$> body_lines body
        else []
    | Raise _ => []
    end.


(** The history only grows, and only by entries of the allowed kinds. *)
Definition only_appends `{X : Externals} (allowed : kind → bool)
    (w w' : World X) : Prop :=
  ∃ evs, trace w' = trace w ++ evs
         ∧ Forall (λ ev, allowed (kind_of ev) = true) evs.


Definition attach_kinds (k : kind) : bool :=
  match k with KLog | KExec | KInventory | KHwAddr => true | _ => false end.

Definition detach_kinds (k : kind) : bool :=
  match k with KLog | KExec => true | _ => false end.

Definition stats_kinds (k : kind) : bool :=
  match k with KOpen => true | _ => false end.

(** The kill requests that a history holds. *)
Definition kill_of (ev : event) : option (res unit) :=
  match ev with EvKill r => Some r | _ => None end.

Definition kills_in (tr : list event) : list (res unit) := omap kill_of tr.

(** A port record once attached: what lines 259-260 store in it. *)
Definition attached (p : Port) (hw : string) (inventory : list BridgePort)
  : Port :=
  {| iface := iface p; hwaddr := Some hw;
     virtual_port_id := virtual_port_id p;
     ovs_port_id := find_ovs_port (iface p) inventory |}.

(** What attaching one port adds to the history when every call
    returns. *)
Definition attach_events (br : string) (k : Z) (p : Port) (hw : string)
    (inventory : list BridgePort) : list event :=
  let ovs := find_ovs_port (iface p) inventory in
  [EvLog "Adding virtual port %u (%s) to bridge %s"
     [LInt k; LStr (iface p); LStr br];
   EvExecCmd ["ifconfig"; iface p; "up"] (Ok tt);
   EvExecCmd ["ovs-vsctl"; "add-port"; br; iface p] (Ok tt);
   EvAgentPorts (Ok inventory);
   EvLog "Disabling flooding on port %u on bridge %s" [log_int ovs; LStr br];
   EvExecCmd ["ovs-ofctl"; "mod-port"; br; str_opt ovs; "no-flood"] (Ok tt);
   EvGetHwAddr (iface p) (Ok hw)].

Definition attach_all (br : string) (table : list (Z * Port))
    (answers : list (string * list BridgePort)) : list event :=
  List.concat (zip_with (λ kp a, attach_events br kp.1 kp.2 a.1 a.2)
            table answers).

Definition attached_all (table : list (Z * Port))
    (answers : list (string * list BridgePort)) : list (Z * Port) :=
  zip_with (λ kp a, (kp.1, attached kp.2 a.1 a.2)) table answers.

(** The commands that a history holds, with their outcomes. *)
Definition exec_of (ev : event) : option (list string * res unit) :=
  match ev with EvExecCmd cmd r => Some (cmd, r) | _ => None end.

Definition execs_in (tr : list event) : list (list string * res unit) :=
  omap exec_of tr.

Definition del_port_cmd (br : string) (p : Port) : list string :=
  ["ovs-vsctl"; "del-port"; br; iface p].

(** An outcome of a detach command that [remove_ifaces] puts up with. *)
Definition tolerated (r : res unit) : Prop :=
  r = Ok tt ∨ ∃ msg, r = Raise (OSError msg).

(** Every counter of a result was parsed from the text read from the
    file of its interface and field, among the reads [evs]. *)
Definition counters_from_files `{X : Externals}
    (out : list (string * list (string * Z))) (evs : list event) : Prop :=
  ∀ ifname cs field n,
    (ifname, cs) ∈ out → (field, n) ∈ cs →
    ∃ text, EvOpenRead (stats_path ifname field) (Ok text) ∈ evs
            ∧ builtin_int text = Ok n.

(** A text that was read and that [int] refuses ends the computation
    with the error of [int]. *)
Definition refused_text_fails `{X : Externals} {A} (evs : list event)
    (r : res A) : Prop :=
  ∀ path text e,
    EvOpenRead path (Ok text) ∈ evs → builtin_int text = Raise e →
    r = Raise e.

(** [k] rounds of the heartbeat in which the child is reported alive: the
    outside after them, if the child is alive in each; and what they add
    to the history. *)
Fixpoint polls_alive `{X : Externals} (k : nat) (e : Env) : option Env :=
  match k with
  | O => Some e
  | S k' =>
      match process_poll e with
      | (None, e1) => polls_alive k' (time_sleep 2000 e1)
      | (Some _, _) => None
      end
  end.

Fixpoint waiting_rounds (k : nat) : list event :=
  match k with
  | O => []
  | S k' => EvPoll None :: EvSleep 2000 :: waiting_rounds k'
  end.

(** What [init_lvnf] does outside before it reports, on the path where
    the child is found running. *)
Definition startup_quiet (k : kind) : bool :=
  match k with
  | KLog | KCommunicate | KWrite | KExec | KInventory | KHwAddr => true
  | _ => false
  end.

Definition other_than_thread (k : kind) : bool :=
  match k with KThread => false | _ => true end.

(** A string with a newline in it. *)
Fixpoint has_nl (s : string) : bool :=
  match s with
  | EmptyString => false
  | String c s' => bool_decide (c = "010"%char) || has_nl s'
  end.

(** * Properties *)

Section properties.
Context `{X : Externals}.

Ltac mrun :=
  unfold mbind, M_bind, mret, M_ret, bind, ret, raise, call, get_self,
    get_agent, modify_self, modify_agent, logging_info in *; simpl in *.

(** ** Dictionaries *)

Section dict_facts.
Context {K V : Type} `{EqDecision K}.
Implicit Types (k : K) (v : V) (d : list (K * V)).

Lemma dict_get_None k d : dict_get k d = None ↔ k ∉ dict_keys d.
Proof.
  unfold dict_keys. induction d as [|[k' v'] d IH]; simpl.
  - split; [intros _; apply not_elem_of_nil|done].
  - rewrite not_elem_of_cons, <- IH.
    destruct (decide (k = k')); intuition congruence.
Qed.

Lemma dict_get_elem k v d : dict_get k d = Some v → (k, v) ∈ d.
Proof.
  induction d as [|[k' v'] d IH]; simpl; [done|].
  destruct (decide (k = k')) as [->|?].
  - intros [= ->]. left.
  - intros. right. auto.
Qed.

Lemma dict_get_set_eq k v d : dict_get k (dict_set k v d) = Some v.
Proof.
  induction d as [|[k' v'] d IH]; simpl.
  - by rewrite decide_True.
  - destruct (decide (k = k')); simpl; [by rewrite decide_True|].
    by rewrite decide_False.
Qed.

Lemma dict_get_set_ne k k' v d :
  k' ≠ k → dict_get k' (dict_set k v d) = dict_get k' d.
Proof.
  intros Hne. induction d as [|[k0 v0] d IH]; simpl.
  - by rewrite decide_False.
  - destruct (decide (k = k0)) as [->|?]; simpl.
    + by rewrite !decide_False.
    + destruct (decide (k' = k0)); [done|apply IH].
Qed.

Lemma dict_set_set k v v' d : dict_set k v (dict_set k v' d) = dict_set k v d.
Proof.
  induction d as [|[k0 v0] d IH]; simpl.
  - by rewrite decide_True.
  - destruct (decide (k = k0)); simpl; [by rewrite decide_True|].
    by rewrite decide_False, IH.
Qed.

Lemma dict_set_id k v d : dict_get k d = Some v → dict_set k v d = d.
Proof.
  induction d as [|[k0 v0] d IH]; simpl; [done|].
  destruct (decide (k = k0)) as [->|?]; [by intros [= ->]|].
  intros. by rewrite IH.
Qed.

Lemma elem_of_dict_set k v k' v' d :
  (k', v') ∈ dict_set k v d → (k', v') = (k, v) ∨ (k', v') ∈ d.
Proof.
  induction d as [|[k0 v0] d IH]; simpl.
  - rewrite list_elem_of_singleton. by left.
  - destruct (decide (k = k0)); rewrite !elem_of_cons; intuition congruence.
Qed.

Lemma elem_of_keys_set k k' v d :
  k' ∈ dict_keys (dict_set k v d) ↔ k' = k ∨ k' ∈ dict_keys d.
Proof.
  unfold dict_keys. induction d as [|[k0 v0] d IH]; simpl.
  - rewrite list_elem_of_singleton, elem_of_nil. tauto.
  - destruct (decide (k = k0)); simpl; rewrite !elem_of_cons, ?IH;
      intuition congruence.
Qed.

Lemma NoDup_keys_set k v d :
  NoDup (dict_keys d) → NoDup (dict_keys (dict_set k v d)).
Proof.
  unfold dict_keys. induction d as [|[k0 v0] d IH]; simpl.
  - intros _. apply NoDup_singleton.
  - rewrite NoDup_cons. intros [Hk0 Hd].
    destruct (decide (k = k0)) as [->|?]; simpl; rewrite NoDup_cons.
    + done.
    + split; [|by apply IH].
      intros Hin. apply elem_of_keys_set in Hin as [?|?]; done.
Qed.

Lemma dict_get_app k d1 d2 :
  dict_get k (d1 ++ d2)
  = match dict_get k d1 with Some v => Some v | None => dict_get k d2 end.
Proof.
  induction d1 as [|[k' v] d1 IH]; simpl; [done|].
  by destruct (decide (k = k')).
Qed.

Lemma dict_set_fresh k v d :
  dict_get k d = None → dict_set k v d = d ++ [(k, v)].
Proof.
  induction d as [|[k' v'] d IH]; simpl; [done|].
  destruct (decide (k = k')); [done|]. intros Hk. by rewrite IH.
Qed.

Lemma dict_keys_app d1 d2 :
  dict_keys (d1 ++ d2) = dict_keys d1 ++ dict_keys d2.
Proof. apply fmap_app. Qed.

End dict_facts.

(** ** [write_handler] *)

Lemma write_entries_cons handler entry value retv (w : World X) :
  write_entries handler (entry :: value) retv w =
  match utils_write_handler localhost (ctrl (self w)) handler entry (env w) with
  | (Ok r, e') =>
      let w1 := with_event e'
                  (EvWriteHandler localhost (ctrl (self w)) handler entry (Ok r))
                  w in
      if decide (r.1 ≠ 200) then (Ok (r.1, r.2), w1)
      else write_entries handler value (Some r) w1
  | (Raise e, e') =>
      (Raise e,
       with_event e'
         (EvWriteHandler localhost (ctrl (self w)) handler entry (Raise e)) w)
  end.
Proof.
  simpl. mrun.
  destruct (utils_write_handler _ _ _ _ _) as [[r|e] e']; [|done].
  by destruct (decide _).
Qed.

Lemma write_entries_spec handler value :
  ∀ entry retv (w w' : World X) r,
    write_entries handler (entry :: value) retv w = (r, w') →
    ∃ (k : nat) (replies : list (res (Z * string))),
      (1 ≤ k ≤ S (List.length value))%nat
      ∧ List.length replies = k
      ∧ trace w' = trace w ++
          writes_of (ctrl (self w)) handler (take k (entry :: value)) replies
      ∧ self w' = self w ∧ agent w' = agent w
      ∧ (∀ j, (j < k - 1)%nat → ∃ x, replies !! j = Some x ∧ is_200 x)
      ∧ last replies = Some r
      ∧ (∀ st msg, r = Ok (st, msg) → st ≠ 200 ∨ k = S (List.length value)).
Proof.
  induction value as [|entry' value IH]; intros entry retv w w' r Hrun;
    rewrite write_entries_cons in Hrun;
    destruct (utils_write_handler _ _ _ _ _) as [[[st msg]|e] e'] eqn:Hcall;
    simpl in Hrun.
  - (* last entry, a reply *)
    exists 1%nat, [Ok (st, msg)].
    assert (r = Ok (st, msg) ∧ w' = with_event e'
              (EvWriteHandler localhost (ctrl (self w)) handler entry
                 (Ok (st, msg))) w) as [-> ->].
    { destruct (decide _); mrun; by inversion Hrun. }
    repeat split; simpl; auto; try lia; intros; lia.
  - inversion Hrun; subst. exists 1%nat, [Raise e].
    repeat split; simpl; auto; try lia; intros; try lia; discriminate.
  - destruct (decide (st ≠ 200)) as [Hne|Heq].
    + inversion Hrun; subst. exists 1%nat, [Ok (st, msg)].
      repeat split; simpl; auto; try lia; intros; try lia.
      left. congruence.
    + apply dec_stable in Heq. subst st.
      apply (IH _ (Some (200, msg))) in Hrun
        as (k & replies & Hk & Hlen & Htr & Hs & Ha & Hpre
                             & Hlast & Hfin).
      exists (S k), (Ok (200, msg) :: replies). simpl in *.
      repeat split; auto; try lia.
      * rewrite Htr. unfold writes_of. simpl. by rewrite <- app_assoc.
      * intros [|j] Hj; simpl.
        -- eexists; split; [done|]. by exists msg.
        -- apply Hpre. lia.
      * destruct replies; [simpl in Hlen; lia|]. done.
      * intros st' msg' Hr. destruct (Hfin _ _ Hr); [by left|right; lia].
  - inversion Hrun; subst. exists 1%nat, [Raise e].
    repeat split; simpl; auto; try lia; intros; try lia; discriminate.
Qed.

(** C1.  A call of [write_handler] with a non-empty list sends a prefix
    of the list, one entry at a time and in order, to the instance's
    control port.  Every reply but the last one received has status 200,
    the call returns the last reply received, and that reply has a status
    other than 200 or belongs to the last entry of the list: after a
    reply that is not 200 nothing more is sent, and when every entry is
    answered with 200 the answer to the last entry is returned. *)
Theorem write_handler_list_fail_fast handler (value : list string)
    (w w' : World X) (r : res (Z * string)) :
  value ≠ [] →
  write_handler handler (PList value) w = (r, w') →
  ∃ (k : nat) (replies : list (res (Z * string))),
    (1 ≤ k ≤ List.length value)%nat
    ∧ List.length replies = k
    ∧ trace w' = trace w ++
        writes_of (ctrl (self w)) handler (take k value) replies
    ∧ (∀ j, (j < k - 1)%nat → ∃ x, replies !! j = Some x ∧ is_200 x)
    ∧ last replies = Some r
    ∧ (∀ st msg, r = Ok (st, msg) → st ≠ 200 ∨ k = List.length value).
Proof.
  intros Hne Hrun. destruct value as [|entry value]; [done|].
  apply (write_entries_spec handler value entry None) in Hrun
    as (k & replies & Hk & Hlen & Htr & _ & _ & Hpre & Hlast & Hfin).
  exists k, replies. simpl. repeat split; auto; lia.
Qed.

(** C10.  With an empty list [write_handler] sends nothing and raises:
    the variable returned at line 102 was never bound. *)
Theorem write_handler_empty_list_raises handler (w : World X) :
  write_handler handler (PList []) w = (Raise (UnboundLocalError "ret"), w).
Proof. reflexivity. Qed.

(** ** [read_handler] *)

Lemma filter_nonempty (l : list string) :
  List.filter (λ x, truthy x && negb (x =? ""))%string l
  = filter (λ x, x ≠ "") l.
Proof.
  induction l as [|x l IH]; [done|]. simpl. rewrite IH.
  destruct x; simpl; [by rewrite filter_cons_False by naive_solver|].
  by rewrite filter_cons_True by done.
Qed.

Lemma filter_strip_commute (l : list string) :
  (∀ x, x ∈ l → x ≠ "" → strip x ≠ "") →
  filter (λ x, x ≠ "") (strip <$> l) = strip <$> filter (λ x, x ≠ "") l.
Proof.
  induction l as [|x l IH]; intros Hl; [done|].
  rewrite fmap_cons.
  assert (filter (λ x, x ≠ "") (strip <$> l)
          = strip <$> filter (λ x, x ≠ "") l) as IH'.
  { apply IH. intros y Hy. apply Hl. by right. }
  destruct (decide (x = "")) as [->|Hx].
  - rewrite !filter_cons_False by (simpl; naive_solver). done.
  - rewrite !filter_cons_True; [|done|apply Hl; [left|done]].
    by rewrite fmap_cons, IH'.
Qed.

(** C5, as the code has it.  When the underlying read returns a status
    and a body, [read_handler] returns that pair unchanged unless the
    status is 200; with status 200 it returns 200 and the pieces of the
    body between newlines, the empty pieces dropped first and every
    remaining piece stripped afterwards.  This is the list of non-empty
    trimmed lines whenever no piece consists of white space only. *)
Theorem read_handler_lines handler (w : World X) st body e' :
  utils_read_handler localhost (ctrl (self w)) handler (env w)
    = (Ok (st, body), e') →
  (read_handler handler w).1
    = Ok (if decide (st = 200)
          then (200, PList (strip <$> filter (λ x, x ≠ "") (split_nl body)))
          else (st, PStr body))
  ∧ (st = 200 →
     (∀ x, x ∈ split_nl body → x ≠ "" → strip x ≠ "") →
     (read_handler handler w).1 = Ok (200, PList (spec_lines body))).
Proof.
  intros Hcall.
  assert ((read_handler handler w).1
          = Ok (if decide (st = 200)
                then (200, PList (strip <$> filter (λ x, x ≠ "")
                                              (split_nl body)))
                else (st, PStr body))) as Hrun.
  { unfold read_handler. mrun. rewrite Hcall. simpl.
    destruct (decide (st = 200)); [|done].
    unfold body_lines. by rewrite filter_nonempty. }
  split; [done|]. intros -> Hblank. rewrite Hrun.
  rewrite decide_True by done. unfold spec_lines.
  by rewrite filter_strip_commute.
Qed.

(** ** The script builder *)

Lemma append_assoc' (a b c : string) : (a +:+ b) +:+ c = a +:+ (b +:+ c).
Proof.
  induction a as [|x a IH]; [done|].
  change (String x ((a +:+ b) +:+ c) = String x (a +:+ (b +:+ c))).
  by rewrite IH.
Qed.

Lemma append_empty_r (a : string) : a +:+ "" = a.
Proof.
  induction a as [|x a IH]; [done|].
  change (String x (a +:+ "") = String x a). by rewrite IH.
Qed.

Lemma init_round_script bridge seq port st i :
  st_script (init_round bridge seq port st i)
  = st_script st +:+ spec_port_block port bridge seq i.
Proof.
  unfold init_round, spec_port_block, iface_name.
  cbv beta zeta. cbn [st_script]. by rewrite !append_assoc'.
Qed.

Lemma init_rounds_script bridge seq port (l : list Z) :
  ∀ st, st_script (foldl (init_round bridge seq port) st l)
        = st_script st +:+ concat_str (spec_port_block port bridge seq <$> l).
Proof.
  induction l as [|i l IH]; intros st; simpl.
  - by rewrite append_empty_r.
  - by rewrite IH, init_round_script, append_assoc'.
Qed.

(** C7.  The script of a new instance is the per-port block (the
    control-socket declaration on the control port, then the inbound and
    the outbound adapter on [vnf-<bridge>-<seq>-<i>]) for the indices 0
    to [nb_ports - 1] in order, followed by the body of the image as it
    is.  It depends on nothing but the port count and body of the image,
    the bridge name, the sequence number and the node's listen base:
    two constructions that agree on these give the same text. *)
Theorem script_generation agent me id tenant img bridge seq :
  script (__init__ agent me id tenant img bridge seq)
    = spec_script (listen agent + seq) (nb_ports img) (vnf img) bridge seq
  ∧ ∀ agent' me' id' tenant' img',
      listen agent' = listen agent →
      nb_ports img' = nb_ports img → vnf img' = vnf img →
      script (__init__ agent' me' id' tenant' img' bridge seq)
        = script (__init__ agent me id tenant img bridge seq).
Proof.
  assert (∀ a m i t g, script (__init__ a m i t g bridge seq)
            = spec_script (listen a + seq) (nb_ports g) (vnf g) bridge seq)
    as Hclosed.
  { intros. unfold __init__, spec_script, range. simpl.
    by rewrite init_rounds_script. }
  split; [apply Hclosed|].
  intros agent' me' id' tenant' img' Hl Hn Hv.
  by rewrite !Hclosed, Hl, Hn, Hv.
Qed.

(** ** What the operations leave alone *)

Section maintained.
Variable R : World X → World X → Prop.
Variable allowed : kind → bool.
Hypothesis R_refl : ∀ w, R w w.
Hypothesis R_trans : ∀ a b c, R a b → R b c → R a c.
Hypothesis R_event : ∀ w e' ev,
  allowed (kind_of ev) = true → R w (with_event e' ev w).
Hypothesis R_agent : ∀ w f, R w (with_agent f w).
Hypothesis R_context : ∀ w v, R w (with_self (set_context v) w).
Hypothesis R_process : ∀ w v, R w (with_self (set_process v) w).
Hypothesis R_thread : ∀ w v, R w (with_self (set_thread v) w).
Hypothesis R_clear : ∀ w, R w (with_self (set_ports []) w).
Hypothesis R_port : ∀ w k p (f : Port → Port),
  dict_get k (ports (self w)) = Some p → iface (f p) = iface p →
  R w (with_self (set_ports (dict_set k (f p) (ports (self w)))) w).

Lemma maintains_ret {A} (a : A) : maintains R (mret a : M X A).
Proof. intros w. apply R_refl. Qed.

Lemma maintains_raise {A} e : maintains R (raise e : M X A).
Proof. intros w. apply R_refl. Qed.

Lemma maintains_bind {A B} (m : M X A) (k : A → M X B) :
  maintains R m → (∀ a, maintains R (k a)) → maintains R (m ≫= k).
Proof.
  intros Hm Hk w. mrun. specialize (Hm w).
  destruct (m w) as [[a|e] w1]; simpl in *; [|done].
  eapply R_trans; [exact Hm|apply Hk].
Qed.

Lemma maintains_try {A} (m : M X A) h :
  maintains R m → (∀ e k, h e = Some k → maintains R k) →
  maintains R (try_except m h).
Proof.
  intros Hm Hh w. unfold try_except. specialize (Hm w).
  destruct (m w) as [[a|e] w1]; simpl in *; [done|].
  destruct (h e) as [k|] eqn:He; [|done].
  eapply R_trans; [exact Hm|by eapply Hh].
Qed.

Lemma maintains_for {A} (l : list A) (body : A → M X unit) :
  (∀ x, maintains R (body x)) → maintains R (for_ l body).
Proof.
  intros Hb. induction l as [|x l IH]; simpl.
  - apply maintains_ret.
  - apply maintains_bind; [apply Hb|done].
Qed.

Lemma maintains_for_acc {A S} (l : list A) (body : A → S → M X S) :
  (∀ x acc, maintains R (body x acc)) → ∀ acc, maintains R (for_acc l body acc).
Proof.
  intros Hb. induction l as [|x l IH]; intros acc; simpl.
  - apply maintains_ret.
  - apply maintains_bind; [apply Hb|done].
Qed.

Lemma maintains_call {A} f (ev : res A → event) :
  (∀ r, allowed (kind_of (ev r)) = true) → maintains R (call f ev).
Proof. intros Hev w. unfold call. destruct (f (env w)). by apply R_event. Qed.

Lemma maintains_log fmt args :
  allowed KLog = true → maintains R (logging_info (X := X) fmt args).
Proof. intros Hk w. by apply R_event. Qed.

Lemma maintains_get_self : maintains R (get_self (X := X)).
Proof. intros w. apply R_refl. Qed.

Lemma maintains_get_agent : maintains R (get_agent (X := X)).
Proof. intros w. apply R_refl. Qed.

Lemma maintains_modify_agent f : maintains R (modify_agent (X := X) f).
Proof. intros w. apply R_agent. Qed.

Lemma maintains_modify_self f :
  (∀ w, R w (with_self f w)) → maintains R (modify_self (X := X) f).
Proof. intros Hf w. apply Hf. Qed.

Ltac keeps :=
  repeat lazymatch goal with
    | |- maintains _ (mret _) => apply maintains_ret
    | |- maintains _ (ret _) => apply maintains_ret
    | |- maintains _ (raise _) => apply maintains_raise
    | |- maintains _ (call _ _) => apply maintains_call; intros ?; assumption
    | |- maintains _ (logging_info _ _) => apply maintains_log; assumption
    | |- maintains _ get_self => apply maintains_get_self
    | |- maintains _ get_agent => apply maintains_get_agent
    | |- maintains _ (modify_agent _) => apply maintains_modify_agent
    | |- maintains _ (modify_self _) =>
        apply maintains_modify_self; intros ?;
        first [apply R_context|apply R_process|apply R_thread|apply R_clear]
    | |- maintains _ (_ ≫= _) => apply maintains_bind; [|intros ?]
    | |- maintains _ (for_ _ _) => apply maintains_for; intros ?
    | |- maintains _ (for_acc _ _ _) => apply maintains_for_acc; intros ? ?
    | |- maintains _ (match ?x with _ => _ end) => destruct x
    | H : maintains _ ?m |- maintains _ ?m => exact H
    end.

Lemma maintains_read_handler handler :
  allowed KRead = true → maintains R (read_handler handler).
Proof. intros. unfold read_handler. keeps. Qed.

Lemma maintains_write_entries handler value :
  allowed KWrite = true →
  ∀ retv, maintains R (write_entries handler value retv).
Proof.
  intros ?. induction value as [|entry value IH]; intros retv; simpl; keeps.
  apply IH.
Qed.

Lemma maintains_write_handler handler value :
  allowed KWrite = true → maintains R (write_handler handler value).
Proof.
  intros. destruct value; simpl; [keeps|by apply maintains_write_entries].
Qed.

Lemma maintains_handlers_getitem handler :
  maintains R (handlers_getitem handler).
Proof. unfold handlers_getitem. keeps. Qed.

Lemma maintains_set_context context :
  allowed KWrite = true → maintains R (__set_context context).
Proof.
  intros. unfold __set_context, ctx_getitem.
  keeps; solve [apply maintains_handlers_getitem
               |by apply maintains_write_handler].
Qed.

Lemma maintains_ports_getitem k : maintains R (ports_getitem k).
Proof. unfold ports_getitem. keeps. Qed.

Lemma maintains_ports_update k (f : Port → Port) :
  (∀ p, iface (f p) = iface p) → maintains R (ports_update k f).
Proof.
  intros Hf w. unfold ports_update, ports_getitem. mrun.
  destruct (dict_get k (ports (self w))) as [p|] eqn:Hk; simpl;
    [|apply R_refl].
  by apply R_port.
Qed.

Lemma maintains_add_ifaces :
  allowed KLog = true → allowed KExec = true → allowed KInventory = true →
  allowed KHwAddr = true → maintains R add_ifaces.
Proof.
  intros. unfold add_ifaces. keeps; try apply maintains_ports_getitem;
    by apply maintains_ports_update.
Qed.

Lemma maintains_remove_ifaces :
  allowed KLog = true → allowed KExec = true → maintains R remove_ifaces.
Proof.
  intros. unfold remove_ifaces. keeps; try apply maintains_ports_getitem.
  apply maintains_try; [keeps|].
  intros e k He. destruct e; simplify_eq/=. keeps.
Qed.

Lemma maintains_get_process attr : maintains R (get_process attr).
Proof. unfold get_process. keeps. Qed.

Lemma maintains_communicate t :
  allowed KCommunicate = true → maintains R (communicate t).
Proof. intros. unfold communicate. keeps. apply maintains_get_process. Qed.

Lemma maintains_poll : allowed KPoll = true → maintains R poll.
Proof.
  intros. unfold poll. keeps; [apply maintains_get_process|].
  intros w. destruct (process_poll (env w)) as [rc e']. simpl.
  eapply R_trans; [apply (R_event w e' (EvPoll rc)); done|].
  apply R_process.
Qed.

Lemma maintains_kill : allowed KKill = true → maintains R kill.
Proof. intros. unfold kill. keeps. apply maintains_get_process. Qed.

Lemma maintains_sleep ms : allowed KSleep = true → maintains R (sleep ms).
Proof. intros ? w. by apply R_event. Qed.

Lemma maintains_send_caps : allowed KCaps = true → maintains R send_caps.
Proof. intros. unfold send_caps. keeps. Qed.

Lemma maintains_del_lvnf : maintains R del_lvnf.
Proof. unfold del_lvnf. keeps. Qed.

Lemma maintains_decode b : maintains R (decode b).
Proof. unfold decode. keeps. Qed.

Lemma maintains_start_thread t :
  allowed KThread = true → maintains R (start_thread (X := X) t).
Proof. intros ? w. by apply R_event. Qed.

Lemma maintains_catch_timeout {A} (m k : M X A) :
  maintains R m → maintains R k →
  maintains R (try_except m (catch_TimeoutExpired k)).
Proof.
  intros Hm Hk. apply maintains_try; [done|].
  intros e k' He. by destruct e; simplify_eq/=.
Qed.

Hypothesis every_kind : ∀ k, allowed k = true.

Lemma maintains_init_lvnf context : maintains R (init_lvnf context).
Proof.
  pose proof (every_kind KLog).
  unfold init_lvnf. keeps;
    try apply maintains_get_process; try apply maintains_send_caps;
    try apply maintains_del_lvnf; try apply maintains_decode;
    try apply maintains_set_context; try apply maintains_add_ifaces;
    try apply maintains_start_thread; try done.
  apply maintains_catch_timeout; keeps. by apply maintains_communicate.
Qed.

Lemma maintains_on_exit : maintains R on_exit.
Proof.
  pose proof (every_kind KLog).
  unfold on_exit. keeps;
    try apply maintains_get_process; try apply maintains_send_caps;
    try apply maintains_del_lvnf; try apply maintains_decode; try done.
  apply maintains_catch_timeout; keeps;
    solve [by apply maintains_communicate | by apply maintains_kill].
Qed.

Lemma maintains_heartbeat fuel : maintains R (heartbeat fuel).
Proof.
  pose proof (every_kind KLog).
  induction fuel as [|fuel IH]; simpl; keeps;
    try apply maintains_poll; try apply maintains_get_process;
    try apply maintains_on_exit; try apply maintains_sleep; done.
Qed.

Lemma maintains_start context : maintains R (start context).
Proof.
  pose proof (every_kind KLog). pose proof (every_kind KPopen).
  unfold start. keeps. by apply maintains_start_thread.
Qed.

Lemma maintains_stop : maintains R stop.
Proof.
  pose proof (every_kind KLog).
  unfold stop, save_handler. keeps;
    try apply maintains_remove_ifaces; try apply maintains_kill;
    try apply maintains_handlers_getitem; try apply maintains_read_handler;
    done.
Qed.

Lemma maintains_stats : maintains R stats.
Proof.
  pose proof (every_kind KOpen).
  unfold stats, stats_port, stats_field, to_int, out_setitem.
  keeps; apply maintains_ports_getitem.
Qed.

Lemma maintained_by_op (o : op) (w : World X) : R w (run_op o w).
Proof.
  destruct o; simpl.
  - by apply maintains_read_handler.
  - by apply maintains_write_handler.
  - by apply maintains_set_context.
  - apply maintains_init_lvnf.
  - apply maintains_heartbeat.
  - apply maintains_start.
  - apply maintains_stop.
  - by apply maintains_add_ifaces.
  - by apply maintains_remove_ifaces.
  - apply maintains_stats.
Qed.

Lemma maintained_by_ops (l : list op) : ∀ w : World X, R w (run_ops l w).
Proof.
  induction l as [|o l IH]; intros w; simpl; [apply R_refl|].
  eapply R_trans; [apply (maintained_by_op o)|apply IH].
Qed.

End maintained.

(** ** The control port *)

(** C6.  The control port of a new instance is the node's listen base
    plus the sequence number; no operation of the instance, and no
    sequence of them, changes it; two instances created on the same node
    with distinct sequence numbers have distinct control ports. *)
Theorem ctrl_port_fixed :
  (∀ agent me id tenant img bridge seq,
     ctrl (__init__ agent me id tenant img bridge seq) = listen agent + seq)
  ∧ (∀ (l : list op) (w : World X), ctrl (self (run_ops l w)) = ctrl (self w))
  ∧ (∀ agent me1 id1 tenant1 img1 bridge1 seq1 me2 id2 tenant2 img2 bridge2
       seq2,
       seq1 ≠ seq2 →
       ctrl (__init__ agent me1 id1 tenant1 img1 bridge1 seq1)
       ≠ ctrl (__init__ agent me2 id2 tenant2 img2 bridge2 seq2)).
Proof.
  split_and!.
  - done.
  - intros l w.
    apply (maintained_by_ops (λ w w', ctrl (self w') = ctrl (self w))
             (λ _, true)); try done.
    intros a b c Hab Hbc. by rewrite Hbc.
  - intros. simpl. lia.
Qed.

(** ** The port table *)

Lemma init_rounds_ports bridge seq port (l : list Z) :
  ∀ st, NoDup l → (∀ i, i ∈ l → dict_get i (st_ports st) = None) →
    st_ports (foldl (init_round bridge seq port) st l)
    = st_ports st ++ (new_port bridge seq <$> l).
Proof.
  induction l as [|i l IH]; intros st Hnd Hfresh; simpl.
  - by rewrite app_nil_r.
  - apply NoDup_cons in Hnd as [Hi Hnd]. rewrite IH; [|done|].
    + unfold init_round at 1. cbn [st_ports].
      rewrite dict_set_fresh by (apply Hfresh; left).
      by rewrite <- app_assoc.
    + intros j Hj. unfold init_round. cbn [st_ports].
      rewrite dict_set_fresh by (apply Hfresh; left).
      rewrite dict_get_app, Hfresh by (by right). simpl.
      rewrite decide_False; [done|]. intros ->. done.
Qed.

Lemma dict_get_new_port bridge seq (l : list Z) i :
  i ∈ l → dict_get i (new_port bridge seq <$> l) = Some (new_port bridge seq i).2.
Proof.
  induction l as [|j l IH]; intros Hi; [by apply elem_of_nil in Hi|].
  simpl. destruct (decide (i = j)) as [->|Hne]; [done|].
  apply elem_of_cons in Hi as [?|Hi]; [done|by apply IH].
Qed.

Lemma init_ports agent me id tenant img bridge seq :
  ports (__init__ agent me id tenant img bridge seq)
  = new_port bridge seq <$> seqZ 0 (nb_ports img).
Proof.
  unfold __init__, range. cbn [ports].
  rewrite init_rounds_ports; [done|apply NoDup_seqZ|done].
Qed.

Lemma remove_ifaces_clears (w : World X) :
  (remove_ifaces w).1 = Ok tt → ports (self (remove_ifaces w).2) = [].
Proof.
  unfold remove_ifaces. mrun.
  destruct (for_ _ _ w) as [[[]|e] w1]; simpl; [done|discriminate].
Qed.

(** C4, as the code has it.  A new instance records for every index
    below the port count the interface name [vnf-<bridge>-<seq>-<i>].
    After any sequence of operations an index has either the interface
    name it had before or no port record at all: a name is never replaced
    by another one.  [remove_ifaces], when it returns, leaves the port
    table empty, and once the table is empty no operation puts a record
    back. *)
Theorem iface_never_renamed :
  (∀ agent me id tenant img bridge seq i,
     0 ≤ i < nb_ports img →
     port_iface i (__init__ agent me id tenant img bridge seq)
     = Some (iface_name bridge seq i))
  ∧ (∀ (l : list op) (w : World X) i,
       port_iface i (self (run_ops l w)) = None
       ∨ port_iface i (self (run_ops l w)) = port_iface i (self w))
  ∧ (∀ w : World X,
       (remove_ifaces w).1 = Ok tt → ports (self (remove_ifaces w).2) = [])
  ∧ (∀ (l : list op) (w : World X),
       ports (self w) = [] → ports (self (run_ops l w)) = []).
Proof.
  split_and!.
  - intros agent me id tenant img bridge seq i Hi. unfold port_iface.
    rewrite init_ports, dict_get_new_port; [done|].
    apply list_elem_of_lookup. exists (Z.to_nat i).
    apply lookup_seqZ. lia.
  - intros l w i. revert i.
    apply (maintained_by_ops
             (λ w w', ∀ i, port_iface i (self w') = None
                           ∨ port_iface i (self w') = port_iface i (self w))
             (λ _, true));
      try (intros; by right); try done.
    + intros a b c Hab Hbc i. destruct (Hbc i) as [?|Hi]; [by left|].
      rewrite Hi. apply Hab.
    + intros s. by left.
    + intros s k p f Hk Hf i. right. unfold port_iface. simpl.
      clear -Hk Hf. induction (ports (self s)) as [|[k' p'] d IH]; [done|].
      simpl in *. destruct (decide (k = k')) as [->|Hne].
      * simplify_eq. simpl. destruct (decide (i = k')); simpl; [|done].
        by rewrite Hf.
      * simpl. destruct (decide (i = k')); [done|]. by apply IH.
  - apply remove_ifaces_clears.
  - intros l w.
    apply (maintained_by_ops
             (λ w w', ports (self w) = [] → ports (self w') = [])
             (λ _, true)); try done.
    + intros a b c Hab Hbc Ha. auto.
    + intros s k p f Hk _ Hs. rewrite Hs in Hk. done.
Qed.

(** ** The start-up probe *)


(** ** Leaving the registry *)



Lemma dict_keys_set_string {V} (k : string) (v : V) (d : list (string * V)) :
  dict_keys (dict_set k v d) = add_key (dict_keys d) k.
Proof.
  induction d as [|[k0 v0] d IH]; [done|].
  cbn [dict_set]. destruct (decide (k = k0)) as [->|Hne].
  - change (k0 :: dict_keys d = add_key (k0 :: dict_keys d) k0).
    unfold add_key. rewrite decide_True; [done|left].
  - change (k0 :: dict_keys (dict_set k v d) = add_key (k0 :: dict_keys d) k).
    rewrite IH. unfold add_key.
    destruct (decide (k ∈ dict_keys d)) as [Hin|Hin].
    + rewrite decide_True; [done|by right].
    + rewrite decide_False; [done|]. rewrite not_elem_of_cons. done.
Qed.

(** ** [stats] *)

Lemma stats_field_spec port ifname field out (w w' : World X) r :
  stats_field port ifname field out w = (r, w') →
  reads_or_fails w w' r
  ∧ ∀ out', r = Ok out' →
      ∃ cs v, dict_get ifname out = Some cs
              ∧ out' = dict_set ifname (dict_set field v cs) out.
Proof.
  unfold stats_field, ports_getitem, to_int, out_setitem, reads_or_fails.
  mrun.
  destruct (dict_get port (ports (self w))) as [p|]; simpl.
  2:{ intros [= <- <-]. split_and!; [done| |done].
      exists []. rewrite app_nil_r. split; [done|].
      intros ?? Hin. by apply elem_of_nil in Hin. }
  destruct (builtin_open_read _ _) as [[text|e] e']; simpl.
  2:{ intros [= <- <-]. split_and!; [done| |done].
      eexists. split; [done|]. intros ?? Hin.
      apply list_elem_of_singleton in Hin. congruence. }
  destruct (builtin_int text) as [n|e]; simpl.
  2:{ intros [= <- <-]. split_and!; [done| |done].
      eexists. split; [done|]. intros ?? Hin.
      apply list_elem_of_singleton in Hin. congruence. }
  destruct (dict_get ifname out) as [cs|]; simpl; intros [= <- <-].
  - split_and!; [done| |].
    + eexists. split; [done|]. intros ?? Hin.
      apply list_elem_of_singleton in Hin. congruence.
    + intros out' [= <-]. by exists cs, n.
  - split_and!; [done| |done].
    eexists. split; [done|]. intros ?? Hin.
    apply list_elem_of_singleton in Hin. congruence.
Qed.

Lemma reads_or_fails_bind {A B} (w w1 w2 : World X) (a : A) (r : res B) :
  reads_or_fails w w1 (Ok a) → reads_or_fails w1 w2 r →
  reads_or_fails w w2 r.
Proof.
  intros (Hs1 & evs1 & Ht1 & Hf1) (Hs2 & evs2 & Ht2 & Hf2).
  split; [congruence|]. exists (evs1 ++ evs2).
  split; [by rewrite Ht2, Ht1, app_assoc|].
  intros path e Hin. apply elem_of_app in Hin as [Hin|Hin]; [|eauto].
  by apply Hf1 in Hin.
Qed.

Lemma stats_fields_spec port ifname (fs : list string) :
  ∀ out (w w' : World X) r,
    for_acc fs (stats_field port ifname) out w = (r, w') →
    reads_or_fails w w' r
    ∧ ∀ out' cs, r = Ok out' → dict_get ifname out = Some cs →
        ∃ cs', out' = dict_set ifname cs' out
               ∧ dict_keys cs' = foldl add_key (dict_keys cs) fs.
Proof.
  induction fs as [|f fs IH]; intros out w w' r; simpl.
  - mrun. intros [= <- <-]. split.
    + split; [done|]. exists []. rewrite app_nil_r. split; [done|].
      intros ?? Hin. by apply elem_of_nil in Hin.
    + intros out' cs [= <-] Hcs. exists cs. by rewrite dict_set_id.
  - unfold mbind, M_bind, bind.
    destruct (stats_field port ifname f out w) as [[out1|e] w1] eqn:Hf.
    + apply stats_field_spec in Hf as [Hrf1 Hout1].
      intros Hrest. apply IH in Hrest as [Hrf2 Hout2].
      split; [by eapply reads_or_fails_bind|].
      intros out' cs Hr Hcs.
      destruct (Hout1 out1 eq_refl) as (cs0 & v & Hcs0 & ->).
      rewrite Hcs in Hcs0. injection Hcs0 as <-.
      destruct (Hout2 out' (dict_set f v cs) Hr) as (cs' & -> & Hkeys).
      { apply dict_get_set_eq. }
      exists cs'. rewrite dict_set_set. split; [done|].
      by rewrite Hkeys, dict_keys_set_string.
    + apply stats_field_spec in Hf as [Hrf1 _].
      intros [= <- <-]. split; [done|]. intros; discriminate.
Qed.

Lemma stats_port_spec port out (w w' : World X) r :
  stats_port port out w = (r, w') →
  reads_or_fails w w' r
  ∧ ∀ out', r = Ok out' →
      ∃ p cs', dict_get port (ports (self w)) = Some p
               ∧ out' = dict_set (iface p) cs' out
               ∧ dict_keys cs' = fields.
Proof.
  assert (foldl add_key [] fields = fields) as Hfields by done.
  unfold stats_port, ports_getitem. remember fields as fs eqn:Hfs.
  clear Hfs. mrun.
  destruct (dict_get port (ports (self w))) as [p|]; simpl.
  2:{ intros [= <- <-]. split; [|done]. split; [done|].
      exists []. rewrite app_nil_r. split; [done|].
      intros ?? Hin. by apply elem_of_nil in Hin. }
  intros Hrun. apply stats_fields_spec in Hrun as [Hrf Hout].
  split; [done|]. intros out' Hr.
  destruct (Hout out' [] Hr) as (cs' & -> & Hkeys).
  { apply dict_get_set_eq. }
  exists p, cs'. rewrite dict_set_set. split_and!; [done|done|].
  by rewrite Hkeys.
Qed.

Lemma well_formed_stats_set ifname cs out :
  dict_keys cs = fields → well_formed_stats out →
  well_formed_stats (dict_set ifname cs out).
Proof.
  intros Hcs [Hnd Hall]. split; [by apply NoDup_keys_set|].
  intros n cs0 Hin. apply elem_of_dict_set in Hin as [[= -> ->]|Hin]; eauto.
Qed.

Lemma stats_ports_spec (l : list Z) :
  ∀ out (w w' : World X) r,
    for_acc l stats_port out w = (r, w') →
    reads_or_fails w w' r
    ∧ ∀ out', r = Ok out' → well_formed_stats out →
        well_formed_stats out'
        ∧ ∀ x, x ∈ dict_keys out' ↔
               x ∈ dict_keys out
               ∨ ∃ k p, k ∈ l ∧ dict_get k (ports (self w)) = Some p
                        ∧ iface p = x.
Proof.
  induction l as [|port l IH]; intros out w w' r; simpl.
  - mrun. intros [= <- <-]. split.
    + split; [done|]. exists []. rewrite app_nil_r. split; [done|].
      intros ?? Hin. by apply elem_of_nil in Hin.
    + intros out' [= <-] Hwf. split; [done|]. intros x. split; [by left|].
      intros [?|(k & p & Hk & _)]; [done|]. by apply elem_of_nil in Hk.
  - unfold mbind, M_bind, bind.
    destruct (stats_port port out w) as [[out1|e] w1] eqn:Hp.
    + apply stats_port_spec in Hp as [Hrf1 Hout1].
      intros Hrest. apply IH in Hrest as [Hrf2 Hout2].
      split; [by eapply reads_or_fails_bind|].
      intros out' Hr Hwf.
      destruct (Hout1 out1 eq_refl) as (p & cs' & Hport & -> & Hkeys).
      destruct (Hout2 out' Hr) as [Hwf' Hmem].
      { by apply well_formed_stats_set. }
      split; [done|]. intros x. rewrite Hmem, elem_of_keys_set.
      destruct Hrf1 as [Hself _]. rewrite Hself.
      split.
      * intros [[->|?]|(k & p' & Hk & Hget & Hx)]; [|by left|].
        -- right. exists port, p. split_and!; [left|done|done].
        -- right. exists k, p'. split_and!; [by right|done|done].
      * intros [?|(k & p' & Hk & Hget & Hx)]; [by left; right|].
        apply elem_of_cons in Hk as [->|Hk].
        -- left. left. congruence.
        -- right. by exists k, p'.
    + apply stats_port_spec in Hp as [Hrf1 _].
      intros [= <- <-]. split; [done|]. intros; discriminate.
Qed.

(** C8.  When [stats] returns, its result has exactly one entry for each
    interface name in the port table and none besides, and every entry
    holds exactly the four counters [tx_packets], [rx_packets],
    [tx_bytes], [rx_bytes], as integers.  With an empty port table, as
    [remove_ifaces] leaves it, the result is empty.  A counter file that
    cannot be read ends the whole collection with that error: nothing is
    returned. *)
Theorem stats_all_or_nothing (w : World X) :
  (∀ out, (stats w).1 = Ok out →
     well_formed_stats out
     ∧ ∀ ifname, ifname ∈ dict_keys out ↔
         ∃ k p, dict_get k (ports (self w)) = Some p ∧ iface p = ifname)
  ∧ (ports (self w) = [] → stats w = (Ok [], w))
  ∧ ((remove_ifaces w).1 = Ok tt → (stats (remove_ifaces w).2).1 = Ok [])
  ∧ (∃ evs, trace (stats w).2 = trace w ++ evs
       ∧ ∀ path e, EvOpenRead path (Raise e) ∈ evs →
           (stats w).1 = Raise e).
Proof.
  assert (∀ w0 : World X, ports (self w0) = [] → stats w0 = (Ok [], w0))
    as Hempty.
  { intros w0 Hports. unfold stats. mrun. by rewrite Hports. }
  split_and!.
  - intros out Hr. destruct (stats w) as [r w'] eqn:Hrun.
    simpl in Hr. subst r. unfold stats in Hrun. mrun.
    apply stats_ports_spec in Hrun as [_ Hout].
    destruct (Hout out eq_refl) as [Hwf Hmem].
    { split; [apply NoDup_nil_2|]. intros ?? Hin.
      by apply elem_of_nil in Hin. }
    split; [done|]. intros x. rewrite Hmem. split.
    + intros [Hin|(k & p & _ & Hget & Hx)]; [by apply elem_of_nil in Hin|].
      by exists k, p.
    + intros (k & p & Hget & Hx). right. exists k, p. split_and!; try done.
      destruct (decide (k ∈ dict_keys (ports (self w)))) as [|Hn]; [done|].
      apply dict_get_None in Hn. congruence.
  - apply Hempty.
  - intros Hrm. rewrite Hempty; [done|]. by apply remove_ifaces_clears.
  - destruct (stats w) as [r w'] eqn:Hrun. unfold stats in Hrun. mrun.
    apply stats_ports_spec in Hrun as [(_ & evs & Htr & Hfail) _].
    by exists evs.
Qed.

(** ** Context: saved by [stop], replayed by [init_lvnf] *)

Lemma writes_in_app tr1 tr2 :
  writes_in (tr1 ++ tr2) = writes_in tr1 ++ writes_in tr2.
Proof. apply omap_app. Qed.

Lemma reads_in_app tr1 tr2 :
  reads_in (tr1 ++ tr2) = reads_in tr1 ++ reads_in tr2.
Proof. apply omap_app. Qed.

Lemma writes_in_other tr ev :
  other_than_write (kind_of ev) = true →
  writes_in (tr ++ [ev]) = writes_in tr.
Proof.
  intros Hk. rewrite writes_in_app.
  destruct ev; simpl in *; try done; by rewrite app_nil_r.
Qed.

Lemma reads_in_other tr ev :
  other_than_read (kind_of ev) = true →
  reads_in (tr ++ [ev]) = reads_in tr.
Proof.
  intros Hk. rewrite reads_in_app.
  destruct ev; simpl in *; try done; by rewrite app_nil_r.
Qed.

Lemma add_ifaces_no_writes (w : World X) :
  writes_in (trace (add_ifaces w).2) = writes_in (trace w).
Proof.
  apply (maintains_add_ifaces
           (λ w w', writes_in (trace w') = writes_in (trace w))
           other_than_write); try done.
  - intros a b c Hab Hbc. by rewrite Hbc.
  - intros w0 e' ev Hk. by apply writes_in_other.
Qed.

Lemma remove_ifaces_no_reads (w : World X) :
  reads_in (trace (remove_ifaces w).2) = reads_in (trace w)
  ∧ image (self (remove_ifaces w).2) = image (self w)
  ∧ ctrl (self (remove_ifaces w).2) = ctrl (self w).
Proof.
  apply (maintains_remove_ifaces
           (λ w w', reads_in (trace w') = reads_in (trace w)
                    ∧ image (self w') = image (self w)
                    ∧ ctrl (self w') = ctrl (self w))
           other_than_read); try done.
  - intros a b c (? & ? & ?) (? & ? & ?). split_and!; congruence.
  - intros w0 e' ev Hk. split_and!; [|done|done]. by apply reads_in_other.
Qed.

(** The inner loop of [__set_context]: one write per line, whatever the
    replies. *)
Lemma replay_lines path (lines : list string) :
  ∀ w w' : World X,
    for_ lines (λ line, write_handler path (PStr line);; mret tt) w
      = (Ok tt, w') →
    self w' = self w
    ∧ writes_in (trace w')
      = writes_in (trace w)
        ++ ((λ line, (ctrl (self w), path, line)) <$> lines).
Proof.
  induction lines as [|line lines IH]; intros w w'; simpl.
  - mrun. intros [= <-]. by rewrite app_nil_r.
  - mrun.
    destruct (utils_write_handler _ _ _ _ _) as [[r|e] e']; simpl; [|done].
    intros Hrest. apply IH in Hrest as [Hs Hw]. simpl in *.
    split; [done|]. rewrite Hw, writes_in_app. simpl.
    by rewrite <- app_assoc.
Qed.

Lemma dict_get_NoDup {V} (d : list (string * V)) h v :
  NoDup (dict_keys d) → (h, v) ∈ d → dict_get h d = Some v.
Proof.
  unfold dict_keys. induction d as [|[h0 v0] d IH]; simpl.
  - intros _ Hin. by apply elem_of_nil in Hin.
  - rewrite NoDup_cons. intros [Hh0 Hd] Hin.
    apply elem_of_cons in Hin as [[= -> ->]|Hin].
    + by rewrite decide_True.
    + rewrite decide_False; [by apply IH|].
      intros ->. apply Hh0. apply list_elem_of_fmap. by exists (h0, v).
Qed.

(** The outer loop of [__set_context] over the keys of a part [l] of the
    context [ctx]. *)
Lemma replay_handlers ctx (l : list (string * pyval)) :
  (∀ h v, (h, v) ∈ l → dict_get h ctx = Some v) →
  ∀ w w' : World X,
    for_ (dict_keys l) (λ handler,
      handler_name ← handlers_getitem handler;
      lines ← ctx_getitem ctx handler;
      for_ (py_iter lines) (λ line,
        write_handler handler_name (PStr line);; mret tt)) w = (Ok tt, w') →
    self w' = self w
    ∧ writes_in (trace w')
      = writes_in (trace w)
        ++ replay_writes (ctrl (self w)) (handlers (image (self w))) l.
Proof.
  induction l as [|[h v] l IH]; intros Hl w w'.
  - simpl. mrun. intros [= <-]. by rewrite app_nil_r.
  - change (dict_keys ((h, v) :: l)) with (h :: dict_keys l).
    cbn [for_]. unfold mbind at 1, M_bind at 1, bind at 1.
    unfold handlers_getitem, ctx_getitem. mrun.
    rewrite (Hl h v) by left.
    destruct (dict_get h (handlers (image (self w)))) as [path|] eqn:Hpath;
      simpl; [|done].
    destruct (for_ (py_iter v) _ w) as [[[]|e] w1] eqn:Hlines; simpl; [|done].
    apply replay_lines in Hlines as [Hs1 Hw1].
    intros Hrest. apply IH in Hrest as [Hs2 Hw2].
    2:{ intros h' v' Hin. apply Hl. by right. }
    split; [congruence|]. rewrite Hw2, Hw1, Hs1.
    by rewrite <- app_assoc.
Qed.

Lemma set_context_replays ctx (w w' : World X) :
  NoDup (dict_keys ctx) →
  __set_context (thread_args (Some ctx)) w = (Ok tt, w') →
  self w' = self w
  ∧ writes_in (trace w')
    = writes_in (trace w)
      ++ replay_writes (ctrl (self w)) (handlers (image (self w))) ctx.
Proof.
  intros Hnd. destruct ctx as [|[h v] ctx].
  - simpl. mrun. intros [= <-]. by rewrite app_nil_r.
  - unfold thread_args, __set_context. cbn [falsy_context default].
    apply replay_handlers. intros h' v' Hin. by apply dict_get_NoDup.
Qed.

Lemma init_lvnf_replays ctx (w w' : World X) p e1 :
  NoDup (dict_keys ctx) →
  process (self w) = Some p →
  process_communicate 1000 (env w) = (Raise TimeoutExpired, e1) →
  init_lvnf (thread_args (Some ctx)) w = (Ok tt, w') →
  writes_in (trace w')
  = writes_in (trace w)
    ++ replay_writes (ctrl (self w)) (handlers (image (self w))) ctx.
Proof.
  intros Hnd Hp Hprobe.
  unfold init_lvnf, try_except, communicate, get_process.
  unfold mbind, M_bind, bind, get_self, logging_info, call, ret, mret, M_ret.
  cbn [self env with_event fst snd]. rewrite Hp.
  cbn [self env with_event fst snd]. rewrite Hprobe.
  cbn [catch_TimeoutExpired self env with_event set_process process fst snd
       modify_self with_self].
  rewrite Hp. cbn [env with_event].
  match goal with
  | |- context [__set_context _ ?w0] =>
      destruct (__set_context (thread_args (Some ctx)) w0)
        as [[[]|e] wa] eqn:Hset; [|done]
  end.
  apply set_context_replays in Hset as [Hs Hw]; [|done].
  pose proof (add_ifaces_no_writes wa) as Hadd.
  destruct (add_ifaces wa) as [[[]|e] wb]; [|done]. simpl in Hadd.
  unfold send_caps, start_thread, mbind, M_bind, bind, get_self, call.
  destruct (agent_send_caps _ _) as [[[]|e] e2]; [|done].
  intros [= <-]. cbn [trace with_event with_self].
  rewrite !writes_in_other by done. rewrite Hadd, Hw.
  cbn [trace with_event self]. by rewrite !writes_in_other.
Qed.

Lemma captured_keys (hs : list string) :
  ∀ replies, dict_keys (captured (zip hs replies)) `sublist_of` hs.
Proof.
  induction hs as [|h hs IH]; intros [|[st body] replies]; simpl;
    try apply sublist_nil_l.
  destruct (decide (st = 200)); simpl.
  - apply sublist_skip, IH.
  - apply sublist_cons, IH.
Qed.

Lemma replay_captured port (paths_of : list (string * string)) hs paths :
  Forall2 (λ h path, dict_get h paths_of = Some path) hs paths →
  ∀ replies : list (Z * string),
    replay_writes port paths_of (captured (zip hs replies))
    = (λ '(path, line), (port, path, line))
        <$> lines_read (zip paths (Ok <$> replies)).
Proof.
  induction 1 as [|h path hs paths Hpath _ IH];
    intros [|[st body] replies]; try done.
  simpl. destruct (decide (st = 200)) as [->|Hne]; simpl.
  - rewrite Hpath, fmap_app, IH. f_equal.
    rewrite <- list_fmap_compose. done.
  - apply IH.
Qed.

(** The loop of [stop] over the stateful handlers. *)
Lemma save_handlers_spec (hs : list string) :
  ∀ w w' : World X,
    NoDup hs →
    (∀ h, h ∈ hs → h ∉ dict_keys (context (self w))) →
    for_ hs save_handler w = (Ok tt, w') →
    ∃ (paths : list string) (replies : list (Z * string)),
      Forall2 (λ h path, dict_get h (handlers (image (self w))) = Some path)
        hs paths
      ∧ List.length replies = List.length hs
      ∧ reads_in (trace w')
        = reads_in (trace w) ++ zip paths (Ok <$> replies)
      ∧ context (self w') = context (self w) ++ captured (zip hs replies)
      ∧ image (self w') = image (self w).
Proof.
  induction hs as [|h hs IH]; intros w w' Hnd Hfresh.
  - simpl. mrun. intros [= <-]. exists [], [].
    split_and!; try done; by rewrite app_nil_r.
  - apply NoDup_cons in Hnd as [Hh Hnd].
    cbn [for_]. unfold mbind at 1, M_bind at 1, bind at 1.
    destruct (save_handler h w) as [[[]|e] w1] eqn:Hsave; [|done].
    intros Hrest.
    assert (∃ path st body,
              dict_get h (handlers (image (self w))) = Some path
              ∧ reads_in (trace w1) = reads_in (trace w) ++ [(path, Ok (st, body))]
              ∧ context (self w1)
                = context (self w) ++ captured [(h, (st, body))]
              ∧ image (self w1) = image (self w))
      as (path & st & body & Hpath & Hreads & Hctx & Himg).
    { revert Hsave. unfold save_handler, handlers_getitem, read_handler.
      mrun.
      destruct (dict_get h (handlers (image (self w)))) as [path|];
        simpl; [|done].
      destruct (utils_read_handler _ _ _ _) as [[[st body]|e] e'];
        simpl; [|done].
      destruct (decide (st = 200)) as [->|Hne]; simpl.
      - intros [= <-]. exists path, 200, body. simpl.
        rewrite reads_in_app. split_and!; try done.
        rewrite dict_set_fresh; [done|].
        apply dict_get_None, Hfresh. left.
      - rewrite decide_False by done. intros [= <-].
        exists path, st, body. simpl. rewrite reads_in_app.
        rewrite decide_False by done.
        split_and!; try done. by rewrite app_nil_r. }
    apply IH in Hrest
      as (paths & replies & Hpaths & Hlen & Hreads' & Hctx' & Himg');
      [|done|].
    2:{ intros h' Hin. rewrite Hctx, dict_keys_app.
        rewrite not_elem_of_app. split; [apply Hfresh; by right|].
        simpl. destruct (decide (st = 200)); simpl.
        - rewrite list_elem_of_singleton. intros ->. done.
        - apply not_elem_of_nil. }
    exists (path :: paths), ((st, body) :: replies).
    split_and!.
    + constructor; [done|]. by rewrite <- Himg.
    + simpl. by rewrite Hlen.
    + rewrite Hreads', Hreads. by rewrite <- app_assoc.
    + rewrite Hctx', Hctx. rewrite <- app_assoc. f_equal.
      simpl. by destruct (decide (st = 200)).
    + congruence.
Qed.

(** C3.  When [stop] returns, every stateful handler of the image has
    been read once, in order, through the control channel, and the
    context holds, for exactly the handlers whose read was answered with
    status 200, the lines of the answer; the other handlers are absent.
    A later [start] with that context hands it to the start-up thread,
    and [init_lvnf], when it finds the process running and returns,
    has written exactly the lines that were read with status 200, in the
    same order, each to the handler path it was read from, and nothing
    else. *)
Theorem context_saved_and_replayed (w w1 : World X) :
  stop w = (Ok tt, w1) →
  NoDup (state_handlers (image (self w))) →
  ∃ (paths : list string) (replies : list (Z * string)),
    Forall2 (λ h path, dict_get h (handlers (image (self w))) = Some path)
      (state_handlers (image (self w))) paths
    ∧ List.length replies = List.length (state_handlers (image (self w)))
    ∧ reads_in (trace w1)
      = reads_in (trace w) ++ zip paths (Ok <$> replies)
    ∧ context (self w1)
      = captured (zip (state_handlers (image (self w))) replies)
    ∧ (∀ (w2 : World X) child e,
         subprocess_Popen (click_args (self w2)) (env w2) = (Ok child, e) →
         last (trace (start (Some (context (self w1))) w2).2)
         = Some (EvThreadStart
                   (TInitLvnf (thread_args (Some (context (self w1)))))))
    ∧ ∀ (w2 w3 : World X) p e1,
        handlers (image (self w2)) = handlers (image (self w)) →
        process (self w2) = Some p →
        process_communicate 1000 (env w2) = (Raise TimeoutExpired, e1) →
        init_lvnf (thread_args (Some (context (self w1)))) w2 = (Ok tt, w3) →
        writes_in (trace w3)
        = writes_in (trace w2)
          ++ ((λ '(path, line), (ctrl (self w2), path, line))
                <$> lines_read (zip paths (Ok <$> replies))).
Proof.
  intros Hstop Hnd. revert Hstop. unfold stop.
  unfold mbind, M_bind, bind, get_self, logging_info, modify_self.
  cbn [self env with_event fst snd].
  match goal with
  | |- context [remove_ifaces ?w0] =>
      pose proof (remove_ifaces_no_reads w0) as (Hrd & Himg & _);
      destruct (remove_ifaces w0) as [[[]|e] wa]; [|done]
  end.
  cbn [snd trace self with_event with_self set_context image] in *.
  rewrite Himg.
  match goal with
  | |- context [for_ _ save_handler ?wb] =>
      destruct (for_ (state_handlers (image (self w))) save_handler wb)
        as [[[]|e] wc] eqn:Hloop; [|done]
  end.
  apply save_handlers_spec in Hloop
    as (paths & replies & Hpaths & Hlen & Hreads & Hctx & Himg');
    [|done|intros h _; apply not_elem_of_nil].
  cbn [snd trace self with_event with_self set_context image context] in *.
  unfold kill, get_process, mbind, M_bind, bind, get_self, call, ret, raise.
  destruct (process (self wc)) as [pr|]; [|done].
  destruct (process_kill (env wc)) as [[[]|e] e']; [|done].
  intros [= <-]. cbn [trace self with_event].
  exists paths, replies. rewrite Himg in Hpaths.
  split_and!; try done.
  - rewrite reads_in_other by done. rewrite Hreads, Hrd.
    by rewrite reads_in_other.
  - intros w2 child e0 Hpopen. unfold start.
    unfold mbind, M_bind, bind, get_self, logging_info, modify_self,
      modify_agent, call, start_thread.
    cbn [self env with_event with_agent fst snd]. rewrite Hpopen.
    cbn [snd trace with_event with_self]. by rewrite last_snoc.
  - intros w2 w3 p e1 Hh Hp Hprobe Hinit.
    apply (init_lvnf_replays _ _ _ p e1) in Hinit; try done.
    + rewrite Hinit, Hctx, Hh. simpl. by rewrite (replay_captured _ _ _ paths).
    + rewrite Hctx. simpl. eapply sublist_NoDup; [exact Hnd|].
      apply captured_keys.
Qed.

End properties.

Lemma write_handler_list_fail_fast_witness :
  ∃ (k : nat) (replies : list (res (Z * string))),
    (1 ≤ k ≤ 3)%nat
    ∧ List.length replies = k
    ∧ trace (write_handler "h" (PList ["a"; "b"; "c"])
               (world0 (set_sc_writes [Ok (200, "OK"); Ok (500, "bad b")]
                          quiet))).2
      = [] ++ writes_of 10003 "h" (take k ["a"; "b"; "c"]) replies
    ∧ (∀ j, (j < k - 1)%nat → ∃ x, replies !! j = Some x ∧ is_200 x)
    ∧ last replies = Some (Ok (500, "bad b"))
    ∧ (∀ st msg, Ok (500, "bad b") = Ok (st, msg) → st ≠ 200 ∨ k = 3%nat).
Proof.
  apply (write_handler_list_fail_fast (X := Scripted) "h" ["a"; "b"; "c"]
           (world0 (set_sc_writes [Ok (200, "OK"); Ok (500, "bad b")] quiet))).
  - discriminate.
  - vm_compute. reflexivity.
Defined.

Lemma read_handler_lines_witness :
  let body := "x=1" +:+ nl +:+ " y=2 " +:+ nl in
  let w := world0 (set_sc_reads [Ok (200, body)] quiet) in
  (read_handler "cnt.count" w).1 = Ok (200, PList ["x=1"; "y=2"])
  ∧ (read_handler "cnt.count" w).1 = Ok (200, PList (spec_lines body)).
Proof.
  intros body w.
  destruct (read_handler_lines (X := Scripted) "cnt.count" w 200 body quiet)
    as [Hcode Hspec]; [reflexivity|].
  split; [exact Hcode|].
  apply Hspec; [reflexivity|].
  apply (proj1 (Forall_forall (λ x, x ≠ "" → strip x ≠ "") (split_nl body))).
  apply (bool_decide_unpack _). vm_compute. exact I.
Defined.

(** C5, as stated, fails on a line of white space: the body [" "] is one
    piece that is not empty, so it is kept, and stripping it leaves an
    empty line in the result, where the list of non-empty trimmed lines
    is empty. *)
Lemma read_handler_blank_line_counterexample :
  let w := world0 (set_sc_reads [Ok (200, " ")] quiet) in
  (utils_read_handler localhost (ctrl (self w)) "cnt.count" (env w)).1
    = Ok (200, " ")
  ∧ (read_handler "cnt.count" w).1 = Ok (200, PList [""])
  ∧ spec_lines " " = []
  ∧ (read_handler "cnt.count" w).1 ≠ Ok (200, PList (spec_lines " ")).
Proof. vm_compute. repeat split; discriminate. Qed.

Lemma script_generation_witness :
  script (__init__ node 2%nat "lvnf-b" "tenant-b" img "br0" 3)
  = script (__init__ node 1%nat "lvnf-a" "tenant-a" img "br0" 3).
Proof.
  apply (script_generation node 1%nat "lvnf-a" "tenant-a" img "br0" 3);
    reflexivity.
Defined.

Lemma ctrl_port_fixed_witness :
  ctrl (__init__ node 1%nat "lvnf-a" "tenant-a" img "br0" 3)
  ≠ ctrl (__init__ node 2%nat "lvnf-b" "tenant-b" img "br0" 4).
Proof.
  apply (proj2 (proj2 (ctrl_port_fixed (X := Scripted)))). lia.
Defined.

(** C4, as stated, fails: an instance with two ports that is started,
    stopped and started again has lost the record of port 0, and with it
    the interface name it had. *)
Lemma stop_discards_iface_counterexample :
  port_iface 0 (self (world0 quiet)) = Some "vnf-br0-3-0"
  ∧ (stop (run_ops [OpStart None; OpInitLvnf None] (world0 quiet))).1 = Ok tt
  ∧ port_iface 0 (self (run_ops stop_and_restart (world0 quiet))) = None
  ∧ port_iface 0 (self (run_ops stop_and_restart (world0 quiet)))
    ≠ port_iface 0 (self (world0 quiet)).
Proof. vm_compute. repeat split; discriminate. Qed.

Lemma iface_never_renamed_witness :
  port_iface 1 (__init__ node 1%nat "lvnf-a" "tenant-a" img "br0" 3)
    = Some (iface_name "br0" 3 1)
  ∧ ports (self (remove_ifaces (world0 quiet)).2) = []
  ∧ ports (self (run_ops [OpStart None; OpInitLvnf None]
                   (remove_ifaces (world0 quiet)).2)) = [].
Proof.
  destruct (iface_never_renamed (X := Scripted)) as (H1 & _ & H3 & H4).
  split_and!.
  - apply H1. simpl. lia.
  - apply H3. vm_compute. reflexivity.
  - apply H4, H3. vm_compute. reflexivity.
Defined.




Lemma stats_all_or_nothing_witness :
  (stats (world0 counting)).1 = Ok counted
  ∧ well_formed_stats counted
  ∧ (stats (world0 quiet)).1 = Raise (OSError "No such file or directory")
  ∧ (stats (remove_ifaces (world0 counting)).2).1 = Ok [].
Proof.
  destruct (stats_all_or_nothing (X := Scripted) (world0 counting))
    as (Hok & _ & Hoff & _).
  destruct (stats_all_or_nothing (X := Scripted) (world0 quiet))
    as (_ & _ & _ & evs & Htr & Hfail).
  split_and!.
  - vm_compute. reflexivity.
  - apply Hok. vm_compute. reflexivity.
  - apply (Hfail "/sys/class/net/vnf-br0-3-0/statistics/tx_packets").
    simpl in Htr. rewrite <- Htr. vm_compute. left.
  - apply Hoff. vm_compute. reflexivity.
Defined.

Lemma context_saved_and_replayed_witness :
  let w1 := (stop running).2 in
  let w2 := (start (Some (context (self w1))) w1).2 in
  let w3 := (init_lvnf (thread_args (Some (context (self w1)))) w2).2 in
  context (self w1) = [("counters", PList ["x=1"; "y=2"])]
  ∧ writes_in (trace w3)
    = writes_in (trace w2)
      ++ [(10003, "cnt.count", "x=1"); (10003, "cnt.count", "y=2")].
Proof.
  intros w1 w2 w3.
  split; [vm_compute; reflexivity|].
  destruct (context_saved_and_replayed (X := Scripted) running w1)
    as (paths & replies & _ & _ & Hreads & _ & _ & Hreplay).
  - vm_compute. reflexivity.
  - apply (bool_decide_unpack _). vm_compute. exact I.
  - assert (zip paths (Ok <$> replies)
            = [("cnt.count", Ok (200, "x=1" +:+ nl +:+ "y=2"));
               ("nat.table", Ok (500, "no such handler"))]) as Hz.
    { apply (app_inv_head (reads_in (trace running))).
      rewrite <- Hreads. vm_compute. reflexivity. }
    rewrite Hz in Hreplay.
    apply (Hreplay w2 w3 {| pid := 4242; returncode := None |} quiet).
    + reflexivity.
    + reflexivity.
    + reflexivity.
    + vm_compute. reflexivity.
Defined.

(** * Further properties *)

(** ** What a method leaves alone, kind by kind *)

Section kept.
Context `{X : Externals}.
Variable R : World X → World X → Prop.
Variable allowed : kind → bool.
Hypothesis R_refl : ∀ w, R w w.
Hypothesis R_trans : ∀ a b c, R a b → R b c → R a c.
Hypothesis R_event : ∀ w e' ev,
  allowed (kind_of ev) = true → R w (with_event e' ev w).
Hypothesis R_context : ∀ w v, R w (with_self (set_context v) w).
Hypothesis R_clear : ∀ w, R w (with_self (set_ports []) w).

Ltac keeps :=
  repeat lazymatch goal with
    | |- maintains _ (mret _) => apply (maintains_ret R); assumption
    | |- maintains _ (ret _) => apply (maintains_ret R); assumption
    | |- maintains _ (raise _) => apply (maintains_raise R); assumption
    | |- maintains _ (call _ _) =>
        apply (maintains_call R allowed); [assumption|intros ?; assumption]
    | |- maintains _ (logging_info _ _) =>
        apply (maintains_log R allowed); assumption
    | |- maintains _ get_self => apply (maintains_get_self R); assumption
    | |- maintains _ (modify_self _) =>
        apply (maintains_modify_self R); intros ?;
        first [apply R_context|apply R_clear]
    | |- maintains _ (_ ≫= _) =>
        apply (maintains_bind R); [assumption| |intros ?]
    | |- maintains _ (for_ _ _) =>
        apply (maintains_for R); [assumption|assumption|intros ?]
    | |- maintains _ (for_acc _ _ _) =>
        apply (maintains_for_acc R); [assumption|assumption|intros ? ?]
    | |- maintains _ (match ?x with _ => _ end) => destruct x
    end.



Lemma kept_stats : allowed KOpen = true → maintains R stats.
Proof.
  intros. unfold stats, stats_port, stats_field, to_int, out_setitem.
  keeps; apply (maintains_ports_getitem R); assumption.
Qed.

End kept.

Section further.
Context `{X : Externals}.

Ltac mrun :=
  unfold mbind, M_bind, mret, M_ret, bind, ret, raise, call, get_self,
    get_agent, modify_self, modify_agent, logging_info in *; simpl in *.

Lemma only_appends_refl allowed (w : World X) : only_appends allowed w w.
Proof. exists []. by rewrite app_nil_r. Qed.

Lemma only_appends_trans allowed (a b c : World X) :
  only_appends allowed a b → only_appends allowed b c →
  only_appends allowed a c.
Proof.
  intros (evs1 & H1 & F1) (evs2 & H2 & F2). exists (evs1 ++ evs2).
  split; [by rewrite H2, H1, app_assoc|]. by apply Forall_app.
Qed.

Lemma only_appends_event allowed (w : World X) e' ev :
  allowed (kind_of ev) = true → only_appends allowed w (with_event e' ev w).
Proof. intros Hk. exists [ev]. split; [done|]. by constructor. Qed.

Lemma only_appends_weaken (a1 a2 : kind → bool) (w w' : World X) :
  (∀ k, a1 k = true → a2 k = true) →
  only_appends a1 w w' → only_appends a2 w w'.
Proof.
  intros Hsub (evs & Htr & Hall). exists evs. split; [done|].
  eapply Forall_impl; [exact Hall|]. intros ev. apply Hsub.
Qed.

Lemma only_appends_self allowed (w : World X) f :
  only_appends allowed w (with_self f w).
Proof. exists []. by rewrite app_nil_r. Qed.

(** ** [write_handler] and [__set_context] *)

(** X1.  A list with one entry is written exactly as the entry alone
    would be: same call, same result, same world afterwards. *)
Theorem write_handler_singleton handler v (w : World X) :
  write_handler handler (PList [v]) w = write_handler handler (PStr v) w.
Proof.
  simpl. mrun.
  destruct (utils_write_handler _ _ _ _ _) as [[r|e] e']; [|done].
  by destruct (decide _).
Qed.

Lemma replay_lines_outcome path (lines : list string) :
  ∀ (w w' : World X) r,
    for_ lines (λ line, write_handler path (PStr line);; mret tt) w = (r, w') →
    self w' = self w
    ∧ ∃ evs, trace w' = trace w ++ evs
        ∧ ∀ e, r = Raise e →
            ∃ entry,
              EvWriteHandler localhost (ctrl (self w)) path entry (Raise e)
              ∈ evs.
Proof.
  induction lines as [|line lines IH]; intros w w' r; simpl.
  - mrun. intros [= <- <-]. split; [done|]. exists [].
    rewrite app_nil_r. split; [done|]. intros; discriminate.
  - mrun.
    destruct (utils_write_handler _ _ _ _ _) as [[r0|e0] e']; simpl.
    + intros Hrest. apply IH in Hrest as (Hs & evs & Htr & Hr).
      simpl in *. split; [done|]. eexists. rewrite Htr, <- app_assoc.
      split; [done|]. intros e He. destruct (Hr e He) as [entry Hin].
      exists entry. by right.
    + intros [= <- <-]. split; [done|]. eexists. split; [done|].
      intros e [= <-]. exists line. left.
Qed.

Lemma replay_handlers_outcome ctx (l : list (string * pyval)) :
  (∀ h v, (h, v) ∈ l → dict_get h ctx = Some v) →
  ∀ (w w' : World X) r,
    for_ (dict_keys l) (λ handler,
      handler_name ← handlers_getitem handler;
      lines ← ctx_getitem ctx handler;
      for_ (py_iter lines) (λ line,
        write_handler handler_name (PStr line);; mret tt)) w = (r, w') →
    self w' = self w
    ∧ (∃ evs, trace w' = trace w ++ evs
         ∧ ∀ e, r = Raise e →
             (∃ h, h ∈ dict_keys l
                   ∧ dict_get h (handlers (image (self w))) = None
                   ∧ e = KeyError h)
             ∨ (∃ path entry,
                  EvWriteHandler localhost (ctrl (self w)) path entry (Raise e)
                  ∈ evs))
    ∧ ((∃ h, h ∈ dict_keys l
             ∧ dict_get h (handlers (image (self w))) = None) →
       ∃ e, r = Raise e).
Proof.
  induction l as [|[h v] l IH]; intros Hl w w' r.
  - simpl. mrun. intros [= <- <-]. split_and!; [done| |].
    + exists []. rewrite app_nil_r. split; [done|]. intros; discriminate.
    + intros (h & Hin & _). by apply elem_of_nil in Hin.
  - change (dict_keys ((h, v) :: l)) with (h :: dict_keys l).
    cbn [for_]. unfold mbind at 1, M_bind at 1, bind at 1.
    unfold handlers_getitem, ctx_getitem. mrun.
    rewrite (Hl h v) by left.
    destruct (dict_get h (handlers (image (self w)))) as [path|] eqn:Hpath;
      simpl.
    2:{ intros [= <- <-]. split_and!; [done| |by eauto].
        exists []. rewrite app_nil_r. split; [done|].
        intros e [= <-]. left. exists h. split_and!; [left|done|done]. }
    destruct (for_ (py_iter v) _ w) as [[[]|e0] w1] eqn:Hlines; simpl.
    + apply replay_lines_outcome in Hlines as (Hs1 & evs1 & Htr1 & _).
      intros Hrest. apply IH in Hrest as (Hs2 & (evs2 & Htr2 & Hr2) & Hmiss).
      2:{ intros h' v' Hin. apply Hl. by right. }
      rewrite Hs1 in *. split_and!; [congruence| |].
      * exists (evs1 ++ evs2). rewrite Htr2, Htr1, app_assoc.
        split; [done|]. intros e He.
        destruct (Hr2 e He) as [(h' & Hin & Hnone & ->)|(pa & en & Hin)].
        -- left. exists h'. split_and!; [by right|done|done].
        -- right. exists pa, en. apply elem_of_app. by right.
      * intros (h' & Hin & Hnone). apply Hmiss.
        apply elem_of_cons in Hin as [->|Hin]; [congruence|by eauto].
    + apply replay_lines_outcome in Hlines as (Hs1 & evs1 & Htr1 & Hr1).
      intros [= <- <-]. split_and!; [done| |by eauto].
      exists evs1. split; [done|]. intros e [= <-].
      destruct (Hr1 e0 eq_refl) as [entry Hin]. right. by exists path, entry.
Qed.

(** X2.  [__set_context] pays no attention to the status of a reply.
    It leaves the instance as it is, and it raises in two cases only: a
    handler of the context is not among the image's handlers ([KeyError]
    for that handler), or a write call itself raised.  A context that
    names a handler the image does not have is never replayed to the
    end. *)
Theorem set_context_outcome ctx (w : World X) :
  NoDup (dict_keys ctx) →
  self (__set_context (Some ctx) w).2 = self w
  ∧ (∃ evs, trace (__set_context (Some ctx) w).2 = trace w ++ evs
       ∧ ∀ e, (__set_context (Some ctx) w).1 = Raise e →
           (∃ h, h ∈ dict_keys ctx
                 ∧ dict_get h (handlers (image (self w))) = None
                 ∧ e = KeyError h)
           ∨ (∃ path entry,
                EvWriteHandler localhost (ctrl (self w)) path entry (Raise e)
                ∈ evs))
  ∧ ((∃ h, h ∈ dict_keys ctx
           ∧ dict_get h (handlers (image (self w))) = None) →
     ∃ e, (__set_context (Some ctx) w).1 = Raise e).
Proof.
  intros Hnd. destruct ctx as [|[h v] ctx].
  - simpl. split_and!; [done| |].
    + exists []. rewrite app_nil_r. split; [done|]. intros; discriminate.
    + intros (h & Hin & _). by apply elem_of_nil in Hin.
  - unfold __set_context. cbn [falsy_context default].
    destruct (for_ _ _ w) as [r w'] eqn:Hrun.
    apply replay_handlers_outcome in Hrun; [done|].
    intros h' v' Hin. by apply dict_get_NoDup.
Qed.

(** ** [add_ifaces]: the inventory scan *)

(** X3.  The scan of the bridge inventory stops at the first entry with
    the interface name and yields its port id; it yields nothing exactly
    when no entry has that name. *)
Theorem find_ovs_port_first ifname (l : list BridgePort) :
  (∀ id, find_ovs_port ifname l = Some id ↔
     ∃ l1 port l2, l = l1 ++ port :: l2
                   ∧ Forall (λ x, bp_iface x ≠ ifname) l1
                   ∧ bp_iface port = ifname ∧ bp_port_id port = id)
  ∧ (find_ovs_port ifname l = None ↔ Forall (λ x, bp_iface x ≠ ifname) l).
Proof.
  induction l as [|x l [IHsome IHnone]]; simpl.
  - split; [|done]. intros id. split; [done|].
    intros (l1 & port & l2 & Hl & _). by destruct l1.
  - destruct (decide (bp_iface x = ifname)) as [Hx|Hx].
    + split.
      * intros id. split.
        -- intros [= <-]. by exists [], x, l.
        -- intros (l1 & port & l2 & Hl & Hno & Hp & <-).
           destruct l1 as [|y l1]; simplify_eq/=; try done.
           by apply Forall_cons in Hno as [? _].
      * split; [done|]. intros Hall. by apply Forall_cons in Hall as [? _].
    + split.
      * intros id. rewrite IHsome. split.
        -- intros (l1 & port & l2 & -> & Hno & Hp & <-).
           exists (x :: l1), port, l2. split_and!; try done.
           by constructor.
        -- intros (l1 & port & l2 & Hl & Hno & Hp & <-).
           destruct l1 as [|y l1]; simplify_eq/=; try done.
           apply Forall_cons in Hno as [_ Hno]. by exists l1, port, l2.
      * rewrite IHnone. split; [by constructor|].
        intros Hall. by apply Forall_cons in Hall as [_ ?].
Qed.

(** ** The constructor *)

(** X4.  A new instance has one port record for each index from 0 to
    [nb_ports - 1], in that order, keyed by the index, with the index as
    [virtual_port_id], the interface name of the index, and neither
    hardware address nor bridge port id; it has an empty context, no
    process and no thread.  With a port count of zero or less it has no
    port at all and its script is the body of the image alone. *)
Theorem new_instance_state agent me id tenant img bridge seq :
  let s := __init__ agent me id tenant img bridge seq in
  ports s = new_port bridge seq <$> seqZ 0 (nb_ports img)
  ∧ List.length (ports s) = Z.to_nat (nb_ports img)
  ∧ context s = [] ∧ process s = None ∧ thread s = None
  ∧ (nb_ports img ≤ 0 → ports s = [] ∧ script s = vnf img).
Proof.
  intros s. subst s. rewrite init_ports.
  split_and!; try done.
  - by rewrite length_fmap, length_seqZ.
  - intros Hn. split; [by rewrite seqZ_nil|].
    unfold __init__, range. cbn [script]. by rewrite seqZ_nil.
Qed.

(** ** What never changes *)


(** ** [start] *)

(** X6.  [start] puts the instance in the registry under its id before
    it spawns the child, and the entry is there whatever the spawn does.
    When the spawn succeeds the process is recorded with no exit code and
    the last thing [start] does is to launch the start-up thread, with
    the context if it is not empty.  When the spawn raises, [start]
    raises too: no process is recorded, no thread is launched, and the
    instance stays registered. *)
Theorem start_registers ctx (w : World X) :
  let id := lvnf_id (self w) in
  lvnfs (agent (start ctx w).2) = <[id := self_ref (self w)]> (lvnfs (agent w))
  ∧ (∀ child e,
       subprocess_Popen (click_args (self w)) (env w) = (Ok child, e) →
       (start ctx w).1 = Ok tt
       ∧ process (self (start ctx w).2)
         = Some {| pid := child; returncode := None |}
       ∧ last (trace (start ctx w).2)
         = Some (EvThreadStart (TInitLvnf (thread_args ctx))))
  ∧ (∀ err e,
       subprocess_Popen (click_args (self w)) (env w) = (Raise err, e) →
       (start ctx w).1 = Raise err
       ∧ process (self (start ctx w).2) = process (self w)
       ∧ trace (start ctx w).2
         = trace w ++ [EvLog "Starting LVNF %s" [LStr id];
                       EvLog "%s" [LStr (__str__ (self w))];
                       EvPopen (click_args (self w)) (Raise err)]).
Proof.
  cbv zeta. unfold start, start_thread. mrun.
  destruct (subprocess_Popen _ _) as [[child|err] e] eqn:Hpopen; simpl.
  - split_and!; [done| |intros ?? [=]].
    intros ? ? [= <- <-]. split_and!; [done|done|].
    by rewrite last_snoc.
  - split_and!; [done|intros ?? [=]|].
    intros ? ? [= <- <-]. split_and!; [done|done|].
    by rewrite <- !app_assoc.
Qed.


(** ** [stop] *)


Lemma kills_in_other tr ev :
  kill_of ev = None → kills_in (tr ++ [ev]) = kills_in tr.
Proof.
  intros Hk. unfold kills_in. rewrite omap_app. simpl. rewrite Hk.
  by rewrite app_nil_r.
Qed.

Lemma remove_ifaces_no_kill (w : World X) :
  kills_in (trace (remove_ifaces w).2) = kills_in (trace w)
  ∧ reads_in (trace (remove_ifaces w).2) = reads_in (trace w)
  ∧ image (self (remove_ifaces w).2) = image (self w).
Proof.
  apply (maintains_remove_ifaces
           (λ w w', kills_in (trace w') = kills_in (trace w)
                    ∧ reads_in (trace w') = reads_in (trace w)
                    ∧ image (self w') = image (self w)) detach_kinds);
    try done.
  - intros a b c (?&?&?) (?&?&?). split_and!; congruence.
  - intros w0 e' ev Hk. split_and!; [| |done].
    + apply kills_in_other. by destruct ev.
    + apply reads_in_other. by destruct ev.
Qed.

(** The loop of [stop]: no kill request, and one read per handler when
    it runs to its end. *)
Lemma save_handlers_count (hs : list string) :
  ∀ (w w' : World X) r,
    for_ hs save_handler w = (r, w') →
    kills_in (trace w') = kills_in (trace w)
    ∧ process (self w') = process (self w)
    ∧ (r = Ok tt →
       List.length (reads_in (trace w'))
       = (List.length (reads_in (trace w)) + List.length hs)%nat).
Proof.
  induction hs as [|h hs IH]; intros w w' r.
  - simpl. mrun. intros [= <- <-]. split_and!; [done|done|lia].
  - cbn [for_]. unfold mbind at 1, M_bind at 1, bind at 1.
    destruct (save_handler h w) as [r1 w1] eqn:Hsave.
    assert (kills_in (trace w1) = kills_in (trace w)
            ∧ process (self w1) = process (self w)
            ∧ (r1 = Ok tt →
               List.length (reads_in (trace w1))
               = S (List.length (reads_in (trace w)))))
      as (Hk1 & Hp1 & Hr1).
    { revert Hsave. unfold save_handler, handlers_getitem, read_handler.
      mrun.
      destruct (dict_get h (handlers (image (self w)))) as [path|]; simpl.
      2:{ by intros [= <- <-]. }
      destruct (utils_read_handler _ _ _ _) as [[[st body]|e] e']; simpl.
      2:{ intros [= <- <-]. simpl. split_and!; [|done|done].
          by apply kills_in_other. }
      destruct (decide (st = 200)) as [->|Hne]; simpl.
      - intros [= <- <-]. simpl. split_and!; [|done|].
        + by apply kills_in_other.
        + intros _. rewrite reads_in_app, length_app. simpl. lia.
      - rewrite decide_False by done. intros [= <- <-]. simpl.
        split_and!; [|done|].
        + by apply kills_in_other.
        + intros _. rewrite reads_in_app, length_app. simpl. lia. }
    destruct r1 as [[]|e].
    + intros Hrest. apply IH in Hrest as (Hk & Hp & Hr).
      split_and!; [congruence|congruence|].
      intros Hok. rewrite (Hr Hok), (Hr1 eq_refl). simpl. lia.
    + intros [= <- <-]. done.
Qed.

(** X9.  [stop] requests the kill at most once, as the last thing it
    does, and only after the detach loop has returned and every stateful
    handler has been read: a stop that fails earlier (a handler missing
    from the image, a read that raises, a detach command that raises
    something other than [OSError]) leaves the child running. *)
Theorem stop_kills_last (w : World X) :
  kills_in (trace (stop w).2) = kills_in (trace w)
  ∨ ∃ r, kills_in (trace (stop w).2) = kills_in (trace w) ++ [r]
         ∧ last (trace (stop w).2) = Some (EvKill r)
         ∧ (stop w).1 = r
         ∧ (remove_ifaces
              (with_event (env w)
                 (EvLog "Stopping LVNF %s" [LStr (lvnf_id (self w))]) w)).1
           = Ok tt
         ∧ List.length (reads_in (trace (stop w).2))
           = (List.length (reads_in (trace w))
              + List.length (state_handlers (image (self w))))%nat.
Proof.
  unfold stop.
  unfold mbind, M_bind, bind, get_self, logging_info, modify_self.
  cbn [self env with_event fst snd].
  match goal with
  | |- context [remove_ifaces ?w0] =>
      pose proof (remove_ifaces_no_kill w0) as (Hk0 & Hr0 & Himg);
      destruct (remove_ifaces w0) as [[[]|e] wa]
  end.
  2:{ left. simpl in *. rewrite Hk0. by apply kills_in_other. }
  cbn [snd trace self with_event with_self set_context image] in *.
  rewrite Himg.
  match goal with
  | |- context [for_ _ save_handler ?wb] =>
      destruct (for_ (state_handlers (image (self w))) save_handler wb)
        as [r wc] eqn:Hloop
  end.
  apply save_handlers_count in Hloop as (Hk1 & Hp1 & Hr1).
  cbn [trace self with_self set_context process] in *.
  destruct r as [[]|e].
  2:{ left. simpl. rewrite Hk1, Hk0. by apply kills_in_other. }
  unfold kill, get_process, mbind, M_bind, bind, get_self, call, ret, raise.
  destruct (process (self wc)) as [pr|].
  2:{ left. simpl. rewrite Hk1, Hk0. by apply kills_in_other. }
  destruct (process_kill (env wc)) as [rk e'].
  right. exists rk. cbn [fst snd trace with_event].
  split_and!.
  - unfold kills_in. rewrite omap_app. fold (kills_in (trace wc)).
    rewrite Hk1, Hk0. simpl. f_equal. by apply kills_in_other.
  - by rewrite last_snoc.
  - done.
  - done.
  - rewrite reads_in_other by done. rewrite (Hr1 eq_refl), Hr0.
    by rewrite reads_in_other.
Qed.

(** ** [add_ifaces] and [remove_ifaces] *)

Lemma dict_get_NoDup_Z {V} (d : list (Z * V)) k v :
  NoDup (dict_keys d) → (k, v) ∈ d → dict_get k d = Some v.
Proof.
  unfold dict_keys. induction d as [|[k0 v0] d IH]; simpl.
  - intros _ Hin. by apply elem_of_nil in Hin.
  - rewrite NoDup_cons. intros [Hk0 Hd] Hin.
    apply elem_of_cons in Hin as [[= -> ->]|Hin].
    + by rewrite decide_True.
    + rewrite decide_False; [by apply IH|].
      intros ->. apply Hk0. apply list_elem_of_fmap. by exists (k0, v).
Qed.

Lemma add_ifaces_rounds (w : World X) :
  add_ifaces w = for_ (dict_keys (ports (self w))) attach_port w.
Proof. reflexivity. Qed.

Lemma remove_ifaces_rounds (w : World X) :
  remove_ifaces w
  = (for_ (dict_keys (ports (self w))) detach_port;;
     modify_self (set_ports [])) w.
Proof. reflexivity. Qed.

Lemma dict_keys_set_present {V} (k : Z) (v v0 : V) (d : list (Z * V)) :
  dict_get k d = Some v0 → dict_keys (dict_set k v d) = dict_keys d.
Proof.
  induction d as [|[k' v'] d IH]; [done|].
  cbn [dict_get dict_set]. destruct (decide (k = k')) as [->|?]; [done|].
  intros Hk.
  change (k' :: dict_keys (dict_set k v d) = k' :: dict_keys d).
  by rewrite IH.
Qed.

Lemma port_iface_set (s : LVNF) k p (f : Port → Port) i :
  dict_get k (ports s) = Some p → iface (f p) = iface p →
  port_iface i (set_ports (dict_set k (f p) (ports s)) s) = port_iface i s.
Proof.
  intros Hk Hf. unfold port_iface. simpl.
  induction (ports s) as [|[k' p'] d IH]; [done|].
  simpl in *. destruct (decide (k = k')) as [->|Hne].
  - simplify_eq. simpl. destruct (decide (i = k')); simpl; [|done].
    by rewrite Hf.
  - simpl. destruct (decide (i = k')); [done|]. by apply IH.
Qed.

(** X10.  Whatever its outcome, [add_ifaces] adds no port record and
    removes none, keeps the interface name of every index, and leaves the
    agent, the context, the process and the thread alone; outside it only
    logs, runs commands, reads the bridge inventory and looks up hardware
    addresses. *)
Theorem add_ifaces_keeps (w : World X) :
  dict_keys (ports (self (add_ifaces w).2)) = dict_keys (ports (self w))
  ∧ (∀ k, port_iface k (self (add_ifaces w).2) = port_iface k (self w))
  ∧ agent (add_ifaces w).2 = agent w
  ∧ context (self (add_ifaces w).2) = context (self w)
  ∧ process (self (add_ifaces w).2) = process (self w)
  ∧ thread (self (add_ifaces w).2) = thread (self w)
  ∧ only_appends attach_kinds w (add_ifaces w).2.
Proof.
  apply (maintains_add_ifaces
           (λ w w', dict_keys (ports (self w')) = dict_keys (ports (self w))
                    ∧ (∀ k, port_iface k (self w') = port_iface k (self w))
                    ∧ agent w' = agent w
                    ∧ context (self w') = context (self w)
                    ∧ process (self w') = process (self w)
                    ∧ thread (self w') = thread (self w)
                    ∧ only_appends attach_kinds w w') attach_kinds);
    try done.
  - intros w0. split_and!; try done. apply only_appends_refl.
  - intros a b c (?&Hab&?&?&?&?&?) (?&Hbc&?&?&?&?&?).
    split_and!; try congruence. by eapply only_appends_trans.
  - intros w0 e' ev Hk. split_and!; try done. by apply only_appends_event.
  - intros w0 k p f Hk Hf. split_and!; try done.
    + simpl. by eapply dict_keys_set_present.
    + intros i. by apply port_iface_set.
    + apply only_appends_self.
Qed.

Lemma dict_set_app_fresh {V} (k : Z) (v v0 : V) (d1 d2 : list (Z * V)) :
  k ∉ dict_keys d1 →
  dict_set k v (d1 ++ (k, v0) :: d2) = d1 ++ (k, v) :: d2.
Proof.
  unfold dict_keys. induction d1 as [|[k' v'] d1 IH]; simpl.
  - intros _. by rewrite decide_True.
  - rewrite not_elem_of_cons. intros [Hne Hk].
    rewrite decide_False by done. by rewrite IH.
Qed.

Lemma dict_get_app_fresh {V} (k : Z) (v0 : V) (d1 d2 : list (Z * V)) :
  k ∉ dict_keys d1 → dict_get k (d1 ++ (k, v0) :: d2) = Some v0.
Proof.
  intros Hk. rewrite dict_get_app.
  apply dict_get_None in Hk. rewrite Hk. simpl. by rewrite decide_True.
Qed.

(** One round of the attach loop that returns. *)
Lemma attach_port_ok k p pre post (w w' : World X) :
  ports (self w) = pre ++ (k, p) :: post →
  k ∉ dict_keys pre →
  attach_port k w = (Ok tt, w') →
  ∃ hw inventory,
    ports (self w') = pre ++ (k, attached p hw inventory) :: post
    ∧ trace w'
      = trace w ++ attach_events (agent_bridge (agent w)) k p hw inventory
    ∧ agent w' = agent w.
Proof.
  intros Hports Hk. unfold attach_port, ports_update, ports_getitem. mrun.
  rewrite Hports, dict_get_app_fresh by done. simpl.
  destruct (utils_exec_cmd _ _) as [[[]|e] e1]; simpl; [|done].
  destruct (utils_exec_cmd _ _) as [[[]|e] e2]; simpl; [|done].
  destruct (agent_ports _) as [[inventory|e] e3]; simpl; [|done].
  destruct (utils_exec_cmd _ _) as [[[]|e] e4]; simpl; [|done].
  destruct (utils_get_hw_addr _ _) as [[hw|e] e5]; simpl; [|done].
  rewrite Hports, dict_get_app_fresh by done. unfold with_self. simpl.
  rewrite Hports, dict_set_app_fresh by done.
  rewrite dict_get_app_fresh by done. simpl.
  rewrite dict_set_app_fresh by done.
  intros [= <-]. exists hw, inventory. simpl.
  split_and!; [done| |done]. by rewrite <- !app_assoc.
Qed.

Lemma attach_ports_ok (post : list (Z * Port)) :
  ∀ pre (w w' : World X),
    ports (self w) = pre ++ post →
    NoDup (dict_keys (pre ++ post)) →
    for_ (dict_keys post) attach_port w = (Ok tt, w') →
    ∃ answers,
      List.length answers = List.length post
      ∧ ports (self w') = pre ++ attached_all post answers
      ∧ trace w' = trace w ++ attach_all (agent_bridge (agent w)) post answers
      ∧ agent w' = agent w.
Proof.
  induction post as [|[k p] post IH]; intros pre w w' Hports Hnd.
  - simpl. mrun. intros [= <-]. exists [].
    split_and!; try done; by rewrite app_nil_r.
  - change (dict_keys ((k, p) :: post)) with (k :: dict_keys post).
    cbn [for_]. unfold mbind at 1, M_bind at 1, bind at 1.
    destruct (attach_port k w) as [[[]|e] w1] eqn:Hround; [|done].
    assert (k ∉ dict_keys pre) as Hk.
    { rewrite dict_keys_app in Hnd. apply NoDup_app in Hnd as (_ & Hdis & _).
      intros Hin. apply (Hdis k Hin). left. }
    apply (attach_port_ok k p pre post) in Hround
      as (hw & inventory & Hports1 & Htr1 & Hag1); [|done|done].
    intros Hrest.
    apply (IH (pre ++ [(k, attached p hw inventory)])) in Hrest
      as (answers & Hlen & Hports2 & Htr2 & Hag2).
    + exists ((hw, inventory) :: answers). split_and!.
      * simpl. by rewrite Hlen.
      * rewrite Hports2, <- app_assoc. done.
      * rewrite Htr2, Htr1, Hag1, <- app_assoc. done.
      * congruence.
    + by rewrite Hports1, <- app_assoc.
    + rewrite <- app_assoc. simpl.
      rewrite !dict_keys_app in *. done.
Qed.

(** X11.  When [add_ifaces] returns, it has gone through the port table
    in order and for each port has brought the interface up, added it to
    the agent's bridge, read the inventory, switched flooding off on the
    port id found there (the text [None] when none was found) and looked
    up the hardware address, in this order; every record now holds the
    address and the port id found, and keeps its index and interface
    name. *)
Theorem add_ifaces_attaches (w w' : World X) :
  NoDup (dict_keys (ports (self w))) →
  add_ifaces w = (Ok tt, w') →
  ∃ answers : list (string * list BridgePort),
    List.length answers = List.length (ports (self w))
    ∧ ports (self w') = attached_all (ports (self w)) answers
    ∧ trace w'
      = trace w
        ++ attach_all (agent_bridge (agent w)) (ports (self w)) answers.
Proof.
  intros Hnd Hrun. rewrite add_ifaces_rounds in Hrun.
  apply (attach_ports_ok _ []) in Hrun as (answers & ? & ? & ? & _);
    [|done|done].
  by exists answers.
Qed.

(** One round of the detach loop. *)
Lemma detach_port_outcome k p (w w' : World X) r :
  dict_get k (ports (self w)) = Some p →
  detach_port k w = (r, w') →
  self w' = self w ∧ agent w' = agent w
  ∧ ∃ reply,
      execs_in (trace w')
      = execs_in (trace w)
        ++ [(del_port_cmd (agent_bridge (agent w)) p, reply)]
      ∧ match r with
        | Ok _ => tolerated reply
        | Raise e => reply = Raise e ∧ ¬ ∃ msg, e = OSError msg
        end.
Proof.
  intros Hk. unfold detach_port, ports_getitem, try_except. mrun.
  rewrite Hk. simpl.
  destruct (utils_exec_cmd _ _) as [[[]|e] e1]; simpl.
  - intros [= <- <-]. split_and!; [done|done|]. exists (Ok tt). simpl.
    unfold execs_in. rewrite !omap_app. simpl. rewrite app_nil_r.
    split; [done|by left].
  - destruct e; simpl; intros [= <- <-]; simpl;
      (split_and!; [done|done|]);
      eexists; unfold execs_in; rewrite !omap_app; simpl;
      rewrite ?app_nil_r; (split; [reflexivity|]);
      try (split; [reflexivity|]; by intros [? [=]]).
    right. by eexists.
Qed.

Lemma detach_ports_outcome table (l : list (Z * Port)) :
  (∀ k p, (k, p) ∈ l → dict_get k table = Some p) →
  ∀ (w w' : World X) r,
    ports (self w) = table →
    for_ (dict_keys l) detach_port w = (r, w') →
    self w' = self w ∧ agent w' = agent w
    ∧ ∃ replies,
        execs_in (trace w')
        = execs_in (trace w)
          ++ zip (del_port_cmd (agent_bridge (agent w)) <$> l.*2) replies
        ∧ match r with
          | Ok _ =>
              List.length replies = List.length l ∧ Forall tolerated replies
          | Raise e =>
              (List.length replies ≤ List.length l)%nat
              ∧ (¬ ∃ msg, e = OSError msg)
              ∧ ∃ before, replies = before ++ [Raise e]
                          ∧ Forall tolerated before
          end.
Proof.
  induction l as [|[k p] l IH]; intros Hl w w' r Hports.
  - simpl. mrun. intros [= <- <-]. split_and!; [done|done|].
    exists []. simpl. rewrite app_nil_r. done.
  - change (dict_keys ((k, p) :: l)) with (k :: dict_keys l).
    cbn [for_]. unfold mbind at 1, M_bind at 1, bind at 1.
    destruct (detach_port k w) as [r1 w1] eqn:Hround.
    apply (detach_port_outcome k p) in Hround
      as (Hs1 & Ha1 & reply & Hex1 & Hr1).
    2:{ rewrite Hports. apply Hl. left. }
    destruct r1 as [[]|e].
    + intros Hrest. apply IH in Hrest as (Hs2 & Ha2 & replies & Hex2 & Hr2).
      2:{ intros k' p' Hin. apply Hl. by right. }
      2:{ congruence. }
      split_and!; [congruence|congruence|].
      exists (reply :: replies). split.
      * rewrite Hex2, Hex1, Ha1, <- app_assoc. done.
      * destruct r as [[]|e].
        -- destruct Hr2 as [Hlen Hall]. simpl. split; [by rewrite Hlen|].
           by constructor.
        -- destruct Hr2 as (Hlen & Hnot & before & -> & Hall).
           split_and!; [simpl; lia|done|].
           exists (reply :: before). split; [done|]. by constructor.
    + intros [= <- <-]. destruct Hr1 as [-> Hnot].
      split_and!; [done|done|]. exists [Raise e].
      split; [rewrite Hex1; cbn; by rewrite zip_with_nil_r|].
      split_and!; [simpl; lia|done|]. by exists [].
Qed.

(** X12.  [remove_ifaces] asks the bridge to drop the ports one by one,
    in the order of the port table, and puts up with a command that
    raises [OSError].  When it returns it has issued the command for
    every port, each outcome was a return or an [OSError], and the port
    table is empty. *)
Theorem remove_ifaces_tolerates (w w' : World X) :
  NoDup (dict_keys (ports (self w))) →
  remove_ifaces w = (Ok tt, w') →
  ports (self w') = []
  ∧ agent w' = agent w
  ∧ ∃ replies,
      List.length replies = List.length (ports (self w))
      ∧ Forall tolerated replies
      ∧ execs_in (trace w')
        = execs_in (trace w)
          ++ zip (del_port_cmd (agent_bridge (agent w))
                    <$> (ports (self w)).*2) replies.
Proof.
  intros Hnd. rewrite remove_ifaces_rounds.
  unfold mbind, M_bind, bind, modify_self.
  destruct (for_ _ detach_port w) as [[[]|e] w1] eqn:Hloop; [|done].
  apply (detach_ports_outcome (ports (self w))) in Hloop
    as (Hs & Ha & replies & Hex & Hlen & Hall); [| |done].
  2:{ intros k p Hin. by apply dict_get_NoDup_Z. }
  intros [= <-]. simpl. split_and!; [done|done|]. by exists replies.
Qed.

(** X13.  When [remove_ifaces] raises, the exception is not an
    [OSError] and comes from the detach command of some port: the ports
    before it were dealt with, the ports after it are not touched, and
    the port table is left as it was, not cleared. *)
Theorem remove_ifaces_failure (w w' : World X) e :
  NoDup (dict_keys (ports (self w))) →
  remove_ifaces w = (Raise e, w') →
  self w' = self w
  ∧ agent w' = agent w
  ∧ (¬ ∃ msg, e = OSError msg)
  ∧ ∃ before,
      (List.length before < List.length (ports (self w)))%nat
      ∧ Forall tolerated before
      ∧ execs_in (trace w')
        = execs_in (trace w)
          ++ zip (del_port_cmd (agent_bridge (agent w))
                    <$> (ports (self w)).*2) (before ++ [Raise e]).
Proof.
  intros Hnd. rewrite remove_ifaces_rounds.
  unfold mbind, M_bind, bind, modify_self.
  destruct (for_ _ detach_port w) as [[[]|e0] w1] eqn:Hloop; [done|].
  apply (detach_ports_outcome (ports (self w))) in Hloop
    as (Hs & Ha & replies & Hex & Hlen & Hnot & before & -> & Hall);
    [| |done].
  2:{ intros k p Hin. by apply dict_get_NoDup_Z. }
  intros [= <- <-]. split_and!; [done|done|done|].
  exists before. rewrite length_app in Hlen. simpl in Hlen.
  split_and!; [lia|done|done].
Qed.

(** ** [stats]: where the numbers come from *)

Lemma stats_field_values port p field out (w w' : World X) r :
  dict_get port (ports (self w)) = Some p →
  stats_field port (iface p) field out w = (r, w') →
  self w' = self w
  ∧ ∃ evs, trace w' = trace w ++ evs
      ∧ refused_text_fails evs r
      ∧ ∀ out', r = Ok out' → ∀ base,
          counters_from_files out base →
          counters_from_files out' (base ++ evs).
Proof.
  intros Hport.
  unfold stats_field, ports_getitem, to_int, out_setitem. mrun.
  rewrite Hport. simpl.
  destruct (builtin_open_read _ _) as [[text|e] e']; simpl.
  2:{ intros [= <- <-]. split; [done|]. eexists. split; [done|].
      split; [|done]. intros path t e0 Hin.
      apply list_elem_of_singleton in Hin. congruence. }
  destruct (builtin_int text) as [n|e] eqn:Hint; simpl.
  2:{ intros [= <- <-]. split; [done|]. eexists. split; [done|].
      split; [|done]. intros path t e0 Hin Hbad.
      apply list_elem_of_singleton in Hin. simplify_eq. congruence. }
  destruct (dict_get (iface p) out) as [cs|] eqn:Hcs; simpl;
    intros [= <- <-].
  - split; [done|]. eexists. split; [done|]. split.
    + intros path t e0 Hin Hbad.
      apply list_elem_of_singleton in Hin. simplify_eq. congruence.
    + intros out' [= <-] base Hbase ifname cs0 f n0 Hin Hf.
      apply elem_of_dict_set in Hin as [[= -> ->]|Hin].
      * apply elem_of_dict_set in Hf as [[= -> ->]|Hf].
        -- exists text. split; [|done]. apply elem_of_app. right. left.
        -- destruct (Hbase (iface p) cs f n0) as (t & Ht & Hn);
             [by apply dict_get_elem|done|].
           exists t. split; [|done]. apply elem_of_app. by left.
      * destruct (Hbase ifname cs0 f n0 Hin Hf) as (t & Ht & Hn).
        exists t. split; [|done]. apply elem_of_app. by left.
  - split; [done|]. eexists. split; [done|]. split; [|done].
    intros path t e0 Hin Hbad.
    apply list_elem_of_singleton in Hin. simplify_eq. congruence.
Qed.

Lemma stats_fields_values port p (fs : list string) :
  ∀ out (w w' : World X) r,
    dict_get port (ports (self w)) = Some p →
    for_acc fs (stats_field port (iface p)) out w = (r, w') →
    self w' = self w
    ∧ ∃ evs, trace w' = trace w ++ evs
        ∧ refused_text_fails evs r
        ∧ ∀ out', r = Ok out' → ∀ base,
            counters_from_files out base →
            counters_from_files out' (base ++ evs).
Proof.
  induction fs as [|f fs IH]; intros out w w' r Hport; simpl.
  - mrun. intros [= <- <-]. split; [done|]. exists [].
    rewrite app_nil_r. split; [done|]. split.
    + intros ??? Hin. by apply elem_of_nil in Hin.
    + intros out' [= <-] base Hbase. by rewrite app_nil_r.
  - unfold mbind, M_bind, bind.
    destruct (stats_field port (iface p) f out w) as [[out1|e] w1] eqn:Hf.
    + apply stats_field_values in Hf as (Hs1 & evs1 & Ht1 & Hb1 & Hv1);
        [|done].
      intros Hrest. apply IH in Hrest as (Hs2 & evs2 & Ht2 & Hb2 & Hv2);
        [|congruence].
      split; [congruence|]. exists (evs1 ++ evs2).
      split; [by rewrite Ht2, Ht1, app_assoc|]. split.
      * intros path t e0 Hin Hbad.
        apply elem_of_app in Hin as [Hin|Hin]; [|by eauto].
        by specialize (Hb1 path t e0 Hin Hbad).
      * intros out' Hr base Hbase. rewrite app_assoc.
        apply (Hv2 out' Hr). by apply Hv1.
    + apply stats_field_values in Hf as (Hs1 & evs1 & Ht1 & Hb1 & _);
        [|done].
      intros [= <- <-]. split; [done|]. exists evs1.
      split; [done|]. split; [done|]. intros; discriminate.
Qed.

Lemma stats_port_values port out (w w' : World X) r :
  stats_port port out w = (r, w') →
  self w' = self w
  ∧ ∃ evs, trace w' = trace w ++ evs
      ∧ refused_text_fails evs r
      ∧ ∀ out', r = Ok out' → ∀ base,
          counters_from_files out base →
          counters_from_files out' (base ++ evs).
Proof.
  unfold stats_port, ports_getitem. remember fields as fs eqn:Hfs.
  clear Hfs. mrun.
  destruct (dict_get port (ports (self w))) as [p|] eqn:Hport; simpl.
  2:{ intros [= <- <-]. split; [done|]. exists [].
      rewrite app_nil_r. split; [done|]. split; [|done].
      intros ??? Hin. by apply elem_of_nil in Hin. }
  intros Hrun. apply stats_fields_values in Hrun
    as (Hs & evs & Ht & Hb & Hv); [|done].
  split; [done|]. exists evs. split; [done|]. split; [done|].
  intros out' Hr base Hbase. apply (Hv out' Hr).
  intros ifname cs f n Hin Hf.
  apply elem_of_dict_set in Hin as [[= -> ->]|Hin]; [|by eauto].
  by apply elem_of_nil in Hf.
Qed.

Lemma stats_ports_values (l : list Z) :
  ∀ out (w w' : World X) r,
    for_acc l stats_port out w = (r, w') →
    self w' = self w
    ∧ ∃ evs, trace w' = trace w ++ evs
        ∧ refused_text_fails evs r
        ∧ ∀ out', r = Ok out' → ∀ base,
            counters_from_files out base →
            counters_from_files out' (base ++ evs).
Proof.
  induction l as [|port l IH]; intros out w w' r; simpl.
  - mrun. intros [= <- <-]. split; [done|]. exists [].
    rewrite app_nil_r. split; [done|]. split.
    + intros ??? Hin. by apply elem_of_nil in Hin.
    + intros out' [= <-] base Hbase. by rewrite app_nil_r.
  - unfold mbind, M_bind, bind.
    destruct (stats_port port out w) as [[out1|e] w1] eqn:Hp.
    + apply stats_port_values in Hp as (Hs1 & evs1 & Ht1 & Hb1 & Hv1).
      intros Hrest. apply IH in Hrest as (Hs2 & evs2 & Ht2 & Hb2 & Hv2).
      split; [congruence|]. exists (evs1 ++ evs2).
      split; [by rewrite Ht2, Ht1, app_assoc|]. split.
      * intros path t e0 Hin Hbad.
        apply elem_of_app in Hin as [Hin|Hin]; [|by eauto].
        by specialize (Hb1 path t e0 Hin Hbad).
      * intros out' Hr base Hbase. rewrite app_assoc.
        apply (Hv2 out' Hr). by apply Hv1.
    + apply stats_port_values in Hp as (Hs1 & evs1 & Ht1 & Hb1 & _).
      intros [= <- <-]. split; [done|]. exists evs1.
      split; [done|]. split; [done|]. intros; discriminate.
Qed.


(** X15.  A counter file whose text [int] refuses ends the whole
    collection with the error of [int], as a file that cannot be read
    does: no mapping is returned. *)
Theorem stats_refused_text (w : World X) :
  ∃ evs, trace (stats w).2 = trace w ++ evs
         ∧ ∀ path text e,
             EvOpenRead path (Ok text) ∈ evs → builtin_int text = Raise e →
             (stats w).1 = Raise e.
Proof.
  destruct (stats w) as [r w'] eqn:Hrun. simpl.
  unfold stats in Hrun. mrun.
  apply stats_ports_values in Hrun as (_ & evs & Ht & Hb & _).
  by exists evs.
Qed.

(** X16.  [stats] only reads: whatever its outcome it leaves the
    instance and the agent exactly as they were, and all it does outside
    is to open and read counter files. *)
Theorem stats_only_reads (w : World X) :
  self (stats w).2 = self w
  ∧ agent (stats w).2 = agent w
  ∧ only_appends stats_kinds w (stats w).2.
Proof.
  apply (kept_stats
           (λ w w', self w' = self w ∧ agent w' = agent w
                    ∧ only_appends stats_kinds w w') stats_kinds);
    try done.
  - intros w0. split_and!; try done. apply only_appends_refl.
  - intros a b c (?&?&?) (?&?&?). split_and!; try congruence.
    by eapply only_appends_trans.
  - intros w0 e' ev Hk. split_and!; try done. by apply only_appends_event.
Qed.

(** ** [heartbeat] *)

Lemma set_process_same (s : LVNF) p :
  process s = Some p → returncode p = None →
  set_process (Some {| pid := pid p; returncode := None |}) s = s.
Proof. destruct s, p. simpl. by intros [= ->] ->. Qed.

Lemma heartbeat_waits (k : nat) :
  ∀ (w : World X) t p e fuel,
    thread (self w) = Some t → signal t = true →
    process (self w) = Some p → returncode p = None →
    polls_alive k (env w) = Some e →
    heartbeat (k + fuel) w
    = heartbeat fuel {| self := self w; agent := agent w; env := e;
                        trace := trace w ++ waiting_rounds k |}.
Proof.
  induction k as [|k IH]; intros w t p e fuel Ht Hsig Hp Hrc Halive.
  - simpl in *. injection Halive as <-. rewrite app_nil_r. by destruct w.
  - simpl in Halive.
    destruct (process_poll (env w)) as [[rc|] e1] eqn:Hpoll; [done|].
    change (S k + fuel)%nat with (S (k + fuel)). cbn [heartbeat].
    unfold poll, sleep, get_process. mrun.
    rewrite Ht, Hsig, Hp. simpl. rewrite Hrc, Hpoll. simpl.
    erewrite (IH _ t {| pid := pid p; returncode := None |} e);
      simpl; try done.
    rewrite (set_process_same _ p) by done.
    by rewrite <- !app_assoc.
Qed.

(** X17.  For as long as every poll reports the child alive, the
    heartbeat does nothing but poll and sleep two seconds, round after
    round: it reports nothing, deregisters nothing and changes neither
    the instance nor the agent, and after any number of such rounds it is
    still running. *)
Theorem heartbeat_keeps_waiting k (w : World X) t p e :
  thread (self w) = Some t → signal t = true →
  process (self w) = Some p → returncode p = None →
  polls_alive k (env w) = Some e →
  heartbeat k w
  = (Ok None, {| self := self w; agent := agent w; env := e;
                 trace := trace w ++ waiting_rounds k |}).
Proof.
  intros Ht Hsig Hp Hrc Halive.
  replace k with (k + 0)%nat at 1 by lia.
  by rewrite (heartbeat_waits k w t p e 0%nat).
Qed.

(** X18.  The heartbeat notices the exit at the first poll that reports
    it.  After [k] rounds of waiting, when the poll returns an exit code,
    the drain returns, the error output decodes, the report goes through
    and the instance is registered, the heartbeat returns: it has logged
    the exit code the poll gave, logged the error output only if there
    is some, reported status once and removed the instance from the
    registry. *)
Theorem heartbeat_detects_exit k fuel (w : World X) t p e rc e0 out errs rc'
    e1 msg e2 :
  thread (self w) = Some t → signal t = true →
  process (self w) = Some p → returncode p = None →
  polls_alive k (env w) = Some e →
  process_poll e = (Some rc, e0) →
  process_communicate 500 e0 = (Ok (out, errs, rc'), e1) →
  bytes_decode errs = Ok msg →
  agent_send_caps (lvnf_id (self w)) e1 = (Ok tt, e2) →
  is_Some (lvnfs (agent w) !! lvnf_id (self w)) →
  let id := lvnf_id (self w) in
  let w' := (heartbeat (k + S fuel) w).2 in
  (heartbeat (k + S fuel) w).1 = Ok (Some tt)
  ∧ lvnfs (agent w') = delete id (lvnfs (agent w))
  ∧ process (self w') = Some {| pid := pid p; returncode := Some rc |}
  ∧ trace w'
    = trace w ++ waiting_rounds k
      ++ [EvPoll (Some rc); EvCommunicate 500 (Ok (out, errs, rc'));
          EvLog "LVNF %s terminated with code %u" [LStr id; LInt rc]]
      ++ (if truthy msg then [EvLog "LVNF error: %s" [LStr msg]] else [])
      ++ [EvSendCaps id (Ok tt); EvLog "LVNF %s stopped" [LStr id]].
Proof.
  intros Ht Hsig Hp Hrc Halive Hpoll Hdrain Hdec Hcaps [r Hreg]. cbv zeta.
  rewrite (heartbeat_waits k w t p e (S fuel)) by done.
  simpl.
  unfold poll, on_exit, try_except, communicate, get_process, send_caps,
    del_lvnf, decode.
  mrun. rewrite Ht, Hsig. simpl. rewrite Hp. simpl. rewrite Hrc. simpl.
  rewrite Hpoll. simpl.
  rewrite Hdrain. simpl. rewrite Hdec. simpl.
  destruct (truthy msg); simpl; rewrite ?Hdec; simpl; rewrite Hcaps; simpl;
    rewrite Hreg; simpl; (split_and!; [done|done|done|]);
    by rewrite <- !app_assoc.
Qed.

(** X19.  When the exit is seen but the drain times out, the heartbeat
    requests the kill and drains once more; if that drain times out too,
    the heartbeat ends in [TimeoutExpired]: the exit is never reported
    and the instance stays in the registry. *)
Theorem heartbeat_drain_times_out fuel (w : World X) t p rc e0 e1 e2 e3 :
  thread (self w) = Some t → signal t = true →
  process (self w) = Some p → returncode p = None →
  process_poll (env w) = (Some rc, e0) →
  process_communicate 500 e0 = (Raise TimeoutExpired, e1) →
  process_kill e1 = (Ok tt, e2) →
  process_communicate 500 e2 = (Raise TimeoutExpired, e3) →
  (heartbeat (S fuel) w).1 = Raise TimeoutExpired
  ∧ agent (heartbeat (S fuel) w).2 = agent w
  ∧ trace (heartbeat (S fuel) w).2
    = trace w ++ [EvPoll (Some rc);
                  EvCommunicate 500 (Raise TimeoutExpired);
                  EvKill (Ok tt);
                  EvCommunicate 500 (Raise TimeoutExpired)].
Proof.
  intros Ht Hsig Hp Hrc Hpoll Hdrain Hkill Hdrain2.
  simpl.
  unfold poll, on_exit, try_except, communicate, kill, get_process.
  mrun. rewrite Ht, Hsig, Hp. simpl. rewrite Hrc, Hpoll. simpl.
  rewrite Hdrain. simpl. rewrite Hkill. simpl. rewrite Hdrain2. simpl.
  split_and!; [done|done|]. by rewrite <- !app_assoc.
Qed.

(** ** [init_lvnf] when the child is running *)

Lemma replay_and_attach_quiet ctx (w : World X) :
  let R := λ w w' : World X,
    agent w' = agent w ∧ process (self w') = process (self w)
    ∧ thread (self w') = thread (self w)
    ∧ lvnf_id (self w') = lvnf_id (self w)
    ∧ only_appends startup_quiet w w' in
  R w (__set_context ctx w).2 ∧ R w (add_ifaces w).2.
Proof.
  intros R.
  assert (∀ w0, R w0 w0) as R_refl.
  { intros w0. unfold R. split_and!; try done. apply only_appends_refl. }
  assert (∀ a b c, R a b → R b c → R a c) as R_trans.
  { intros a b c (?&?&?&?&?) (?&?&?&?&?). unfold R.
    split_and!; try congruence. by eapply only_appends_trans. }
  assert (∀ w0 e' ev, startup_quiet (kind_of ev) = true →
                      R w0 (with_event e' ev w0)) as R_event.
  { intros w0 e' ev Hk. unfold R. split_and!; try done.
    by apply only_appends_event. }
  split.
  - by apply (maintains_set_context R startup_quiet).
  - apply (maintains_add_ifaces R startup_quiet); try done.
    intros w0 k p f _ _. unfold R. split_and!; try done.
    apply only_appends_self.
Qed.

(** X20.  When the probe finds the child running, [init_lvnf] never
    touches the registry and never records an exit code.  If it returns,
    the status report and the launch of the heartbeat thread are the last
    two things it did, in this order, after the context replay and the
    port attachment; the report was made once and the thread was launched
    once, with its flag set.  If it raises, no heartbeat thread was
    launched. *)
Theorem init_lvnf_running ctx (w : World X) p e1 :
  process (self w) = Some p →
  process_communicate 1000 (env w) = (Raise TimeoutExpired, e1) →
  let id := lvnf_id (self w) in
  let w' := (init_lvnf ctx w).2 in
  agent w' = agent w
  ∧ process (self w') = process (self w)
  ∧ ((init_lvnf ctx w).1 = Ok tt →
     thread (self w') = Some {| signal := true |}
     ∧ ∃ before,
         trace w' = trace w ++ before
                    ++ [EvSendCaps id (Ok tt); EvThreadStart THeartbeat]
         ∧ Forall (λ ev, startup_quiet (kind_of ev) = true) before)
  ∧ (∀ e, (init_lvnf ctx w).1 = Raise e →
       thread (self w') = thread (self w)
       ∧ only_appends other_than_thread w w').
Proof.
  intros Hp Hprobe. cbv zeta.
  unfold init_lvnf, try_except, communicate, get_process.
  unfold mbind, M_bind, bind, get_self, logging_info, call, ret, mret, M_ret.
  cbn [self env with_event fst snd]. rewrite Hp.
  cbn [self env with_event fst snd]. rewrite Hprobe.
  cbn [catch_TimeoutExpired self env with_event set_process process fst snd
       modify_self with_self].
  rewrite Hp. cbn [env with_event].
  match goal with
  | |- context [__set_context _ ?w0] => set (wa := w0)
  end.
  assert (only_appends startup_quiet w wa ∧ agent wa = agent w
          ∧ process (self wa) = process (self w)
          ∧ thread (self wa) = thread (self w)
          ∧ lvnf_id (self wa) = lvnf_id (self w)) as (Ha0 & Hag0 & Hp0 & Ht0 & Hid0).
  { split_and!; try done. eexists. subst wa. simpl.
    rewrite <- !app_assoc. split; [done|]. by repeat constructor. }
  destruct (replay_and_attach_quiet ctx wa) as [(Hag1 & Hp1 & Ht1 & Hid1 & Ha1) _].
  destruct (__set_context ctx wa) as [[[]|e] wb]; simpl in *.
  2:{ split_and!; [congruence|congruence|done|].
      intros e' _. split; [congruence|].
      apply (only_appends_weaken startup_quiet); [by intros []|].
      by eapply only_appends_trans. }
  destruct (replay_and_attach_quiet ctx wb) as [_ (Hag2 & Hp2 & Ht2 & Hid2 & Ha2)].
  destruct (add_ifaces wb) as [[[]|e] wc]; simpl in *.
  2:{ split_and!; [congruence|congruence|done|].
      intros e' _. split; [congruence|].
      apply (only_appends_weaken startup_quiet); [by intros []|].
      eapply only_appends_trans; [|done]. by eapply only_appends_trans. }
  destruct (only_appends_trans _ _ _ _
              (only_appends_trans _ _ _ _ Ha0 Ha1) Ha2)
    as (evs & Htr & Hall).
  unfold send_caps, start_thread, mbind, M_bind, bind, get_self, call.
  destruct (agent_send_caps _ _) as [[[]|e] e2]; simpl.
  - split_and!; [congruence|congruence| |intros ? [=]].
    intros _. split; [done|]. exists evs. split; [|done].
    rewrite Htr, <- !app_assoc. simpl. do 4 f_equal. congruence.
  - split_and!; [congruence|congruence|done|].
    intros e' _. split; [congruence|].
    exists (evs ++ [EvSendCaps (lvnf_id (self wc)) (Raise e)]).
    split; [simpl; by rewrite Htr, <- app_assoc|].
    apply Forall_app. split; [|by repeat constructor].
    eapply Forall_impl; [exact Hall|]. intros ev. simpl.
    by destruct (kind_of ev).
Qed.

(** ** [to_dict] *)

(** X21.  [to_dict] changes nothing.  On an instance that was never
    started it raises [AttributeError], because there is no process to
    ask for an exit code.  After a [start] that returned it returns the
    attributes as they are, with no exit code. *)
Theorem to_dict_needs_process {I} (image_to_dict : Image → I) :
  (∀ (w : World X), (to_dict image_to_dict w).2 = w)
  ∧ (∀ (w : World X),
     process (self w) = None →
     to_dict image_to_dict w = (Raise (AttributeError "returncode"), w))
  ∧ (∀ agent0 me id tenant img br seq (a : Agent) e tr,
       (to_dict image_to_dict
          {| self := __init__ agent0 me id tenant img br seq; agent := a;
             env := e; trace := tr |}).1
       = Raise (AttributeError "returncode"))
  ∧ (∀ ctx (w : World X),
       (start ctx w).1 = Ok tt →
       ∃ snap,
         to_dict image_to_dict (start ctx w).2 = (Ok snap, (start ctx w).2)
         ∧ d_returncode snap = None
         ∧ d_lvnf_id snap = lvnf_id (self w)
         ∧ d_image snap = image_to_dict (image (self w))
         ∧ d_ctrl snap = ctrl (self w)
         ∧ d_script snap = script (self w)
         ∧ d_ports snap = ports (self w)
         ∧ d_context snap = context (self w)).
Proof.
  split_and!.
  - intros w. unfold to_dict, get_process. mrun.
    by destruct (process (self w)).
  - intros w Hp. unfold to_dict, get_process. mrun. by rewrite Hp.
  - intros. reflexivity.
  - intros ctx w. unfold start, start_thread, to_dict, get_process. mrun.
    destruct (subprocess_Popen _ _) as [[child|err] e]; simpl; [|done].
    intros _. eexists. split; [reflexivity|]. done.
Qed.

(** ** Interface names *)

(** X22.  On one bridge and for one sequence number, different port
    indices get different interface names; so the interface names of a
    new instance are pairwise distinct. *)
Theorem iface_names_distinct :
  (∀ br seq i j, i ≠ j → iface_name br seq i ≠ iface_name br seq j)
  ∧ (∀ agent0 me id tenant img br seq,
       NoDup ((λ kp, iface kp.2)
                <$> ports (__init__ agent0 me id tenant img br seq))).
Proof.
  assert (∀ br seq i j, iface_name br seq i = iface_name br seq j → i = j)
    as Hinj.
  { intros br seq i j. unfold iface_name, fmt_u. intros Heq.
    repeat apply (inj (String.app _)) in Heq.
    by apply (inj pretty) in Heq. }
  split; [intros br seq i j Hne Heq; by apply Hne, (Hinj br seq)|]. intros. rewrite init_ports, <- list_fmap_compose.
  apply NoDup_fmap_2_strong; [|apply NoDup_seqZ].
  intros i j _ _. simpl. apply Hinj.
Qed.

(** ** [read_handler]: the shape of a result *)

Lemma lstrip_length s : (String.length (lstrip s) ≤ String.length s)%nat.
Proof.
  induction s as [|c s IH]; simpl; [done|].
  destruct (is_space c); simpl; lia.
Qed.

Lemma lstrip_fixed c s : lstrip (String c s) = String c s → is_space c = false.
Proof.
  simpl. destruct (is_space c); [|done]. intros Heq.
  pose proof (lstrip_length s) as Hlen. rewrite Heq in Hlen. simpl in Hlen.
  lia.
Qed.

Lemma lstrip_lstrip s : lstrip (lstrip s) = lstrip s.
Proof.
  induction s as [|c s IH]; simpl; [done|].
  destruct (is_space c) eqn:Hc; [done|]. simpl. by rewrite Hc.
Qed.

Lemma rstrip_rstrip s : rstrip (rstrip s) = rstrip s.
Proof.
  induction s as [|c s IH]; simpl; [done|].
  destruct (rstrip s) as [|d t] eqn:Hs.
  - destruct (is_space c) eqn:Hc; simpl; [done|]. by rewrite Hc.
  - change (rstrip (String c (String d t))) with
      (match rstrip (String d t) with
       | EmptyString =>
           if is_space c then EmptyString else String c EmptyString
       | u => String c u
       end).
    by rewrite IH.
Qed.

Lemma lstrip_rstrip s : lstrip s = s → lstrip (rstrip s) = rstrip s.
Proof.
  destruct s as [|c s]; [done|]. intros Hfix.
  apply lstrip_fixed in Hfix. cbn [rstrip].
  destruct (rstrip s); rewrite ?Hfix; cbn [lstrip]; by rewrite Hfix.
Qed.

Lemma strip_strip s : strip (strip s) = strip s.
Proof.
  unfold strip. rewrite lstrip_rstrip by apply lstrip_lstrip.
  apply rstrip_rstrip.
Qed.

Lemma split_nl_no_nl s : Forall (λ x, has_nl x = false) (split_nl s).
Proof.
  induction s as [|c s IH]; simpl; [by repeat constructor|].
  destruct (decide (c = "010"%char)) as [->|Hc]; [by constructor|].
  destruct (split_nl s) as [|x xs]; [|apply Forall_cons in IH as [Hx Hxs]];
    constructor; simpl; try done; by rewrite bool_decide_eq_false_2.
Qed.

Lemma lstrip_no_nl s : has_nl s = false → has_nl (lstrip s) = false.
Proof.
  induction s as [|c s IH]; simpl; [done|].
  intros [Hc Hs]%orb_false_iff. destruct (is_space c); [by apply IH|].
  simpl. by rewrite Hc, Hs.
Qed.

Lemma rstrip_no_nl s : has_nl s = false → has_nl (rstrip s) = false.
Proof.
  induction s as [|c s IH]; simpl; [done|].
  intros [Hc Hs]%orb_false_iff. specialize (IH Hs).
  destruct (rstrip s); [destruct (is_space c)|]; simpl in *; try done.
  - by rewrite Hc.
  - by rewrite Hc, IH.
Qed.

(** X23.  What [read_handler] returns has one of two shapes: status 200
    with a list of lines, each of them free of leading and trailing white
    space and of newlines; or another status with the message as a plain
    string.  The instance is never changed. *)
Theorem read_handler_shape handler (w : World X) st v :
  (read_handler handler w).1 = Ok (st, v) →
  self (read_handler handler w).2 = self w
  ∧ ((st = 200
      ∧ ∃ out, v = PList out
               ∧ Forall (λ line, strip line = line ∧ has_nl line = false) out)
     ∨ (st ≠ 200 ∧ ∃ msg, v = PStr msg)).
Proof.
  unfold read_handler. mrun.
  destruct (utils_read_handler _ _ _ _) as [[[st0 body]|e] e']; simpl; [|done].
  destruct (decide (st0 = 200)) as [->|Hne]; simpl; intros [= <- <-].
  - split; [done|]. left. split; [done|]. eexists. split; [done|].
    unfold body_lines. apply Forall_fmap.
    pose proof (split_nl_no_nl body) as Hall.
    induction (split_nl body) as [|x xs IH]; simpl; [constructor|].
    apply Forall_cons in Hall as [Hx Hxs].
    destruct (truthy x && negb (x =? ""))%string; [|by apply IH].
    constructor; [|by apply IH]. simpl. split; [apply strip_strip|].
    unfold strip. by apply rstrip_no_nl, lstrip_no_nl.
  - split; [done|]. right. split; [done|]. by eexists.
Qed.

End further.

Lemma set_context_outcome_witness :
  self (__set_context (Some [("counters", PList ["x=1"; "y=2"])])
          (world0 quiet)).2 = lvnf0
  ∧ ∃ e, (__set_context (Some [("missing", PStr "1")]) (world0 quiet)).1
         = Raise e.
Proof.
  split.
  - apply (set_context_outcome (X := Scripted)
             [("counters", PList ["x=1"; "y=2"])] (world0 quiet)).
    apply (bool_decide_unpack _). vm_compute. exact I.
  - apply (set_context_outcome (X := Scripted)
             [("missing", PStr "1")] (world0 quiet)).
    + apply (bool_decide_unpack _). vm_compute. exact I.
    + exists "missing". split; [by left|]. vm_compute. reflexivity.
Defined.

Lemma find_ovs_port_first_witness :
  find_ovs_port "vnf-br0-3-0"
    [{| bp_iface := "eth0"; bp_port_id := 1 |};
     {| bp_iface := "vnf-br0-3-0"; bp_port_id := 7 |};
     {| bp_iface := "vnf-br0-3-0"; bp_port_id := 9 |}] = Some 7.
Proof.
  apply (proj1 (find_ovs_port_first _ _)).
  exists [{| bp_iface := "eth0"; bp_port_id := 1 |}],
    {| bp_iface := "vnf-br0-3-0"; bp_port_id := 7 |},
    [{| bp_iface := "vnf-br0-3-0"; bp_port_id := 9 |}].
  split_and!; try reflexivity.
  constructor; [discriminate|constructor].
Defined.

Lemma new_instance_state_witness :
  let plain := {| nb_ports := 0; vnf := "src -> sink;"; handlers := [];
                  state_handlers := [] |} in
  ports (__init__ node 1%nat "lvnf-a" "tenant-a" plain "br0" 3) = []
  ∧ script (__init__ node 1%nat "lvnf-a" "tenant-a" plain "br0" 3)
    = "src -> sink;".
Proof.
  intros plain.
  apply (new_instance_state node 1%nat "lvnf-a" "tenant-a"
           plain "br0" 3).
  simpl. lia.
Defined.

Lemma start_registers_witness :
  (start None (world0 quiet)).1 = Ok tt
  ∧ process (self (start None (world0 quiet)).2)
    = Some {| pid := 4242; returncode := None |}
  ∧ (start None stranded).1 = Raise (OSError "click: not found")
  ∧ process (self (start None stranded).2) = None.
Proof.
  destruct (start_registers (X := Scripted) None (world0 quiet))
    as (_ & Hok & _).
  destruct (Hok 4242 quiet) as (H1 & H2 & _); [reflexivity|].
  destruct (start_registers (X := Unlaunchable) None stranded)
    as (_ & _ & Hfail).
  destruct (Hfail (OSError "click: not found") quiet) as (H3 & H4 & _);
    [reflexivity|].
  split_and!; [exact H1|exact H2|exact H3|exact H4].
Defined.


Lemma add_ifaces_attaches_witness :
  ∃ answers : list (string * list BridgePort),
    List.length answers = 2%nat
    ∧ ports (self (add_ifaces (world0 plugged)).2)
      = attached_all (ports lvnf0) answers
    ∧ trace (add_ifaces (world0 plugged)).2
      = [] ++ attach_all "br0" (ports lvnf0) answers.
Proof.
  apply (add_ifaces_attaches (X := Scripted) (world0 plugged)
           (add_ifaces (world0 plugged)).2).
  - apply (bool_decide_unpack _). vm_compute. exact I.
  - vm_compute. reflexivity.
Defined.

Lemma remove_ifaces_tolerates_witness :
  let w := world0 (set_sc_execs [Raise (OSError "no such port")] quiet) in
  ports (self (remove_ifaces w).2) = []
  ∧ agent (remove_ifaces w).2 = node.
Proof.
  intros w.
  destruct (remove_ifaces_tolerates (X := Scripted) w (remove_ifaces w).2)
    as (H1 & H2 & _).
  - apply (bool_decide_unpack _). vm_compute. exact I.
  - vm_compute. reflexivity.
  - split; [exact H1|exact H2].
Defined.

Lemma remove_ifaces_failure_witness :
  let w := world0 (set_sc_execs [Ok tt; Raise (OtherError "ovs down")] quiet) in
  (remove_ifaces w).1 = Raise (OtherError "ovs down")
  ∧ self (remove_ifaces w).2 = lvnf0.
Proof.
  intros w. split; [vm_compute; reflexivity|].
  apply (remove_ifaces_failure (X := Scripted) w (remove_ifaces w).2
           (OtherError "ovs down")).
  - apply (bool_decide_unpack _). vm_compute. exact I.
  - vm_compute. reflexivity.
Defined.


Lemma stats_refused_text_witness :
  (stats (world0 garbled)).1 = Raise (ValueError "invalid literal for int()").
Proof.
  destruct (stats_refused_text (X := Scripted) (world0 garbled))
    as (evs & Htr & Hfail).
  apply (Hfail "/sys/class/net/vnf-br0-3-0/statistics/tx_packets" "n/a").
  - simpl in Htr. rewrite <- Htr. vm_compute. left.
  - vm_compute. reflexivity.
Defined.

Lemma heartbeat_keeps_waiting_witness :
  let w := run_ops [OpStart None; OpInitLvnf None] (world0 quiet) in
  (heartbeat 2 w).1 = Ok None
  ∧ trace (heartbeat 2 w).2 = trace w ++ waiting_rounds 2.
Proof.
  intros w.
  rewrite (heartbeat_keeps_waiting (X := Scripted) 2 w {| signal := true |}
             {| pid := 4242; returncode := None |} quiet
             eq_refl eq_refl eq_refl eq_refl eq_refl).
  split; reflexivity.
Defined.

Lemma heartbeat_detects_exit_witness :
  let w := run_ops [OpStart None; OpInitLvnf None] (world0 lingering) in
  lvnfs (agent w) !! "lvnf-a" = Some 1%nat
  ∧ (heartbeat 2 w).1 = Ok (Some tt)
  ∧ lvnfs (agent (heartbeat 2 w).2) = delete "lvnf-a" (lvnfs (agent w))
  ∧ process (self (heartbeat 2 w).2)
    = Some {| pid := 4242; returncode := Some (-9) |}.
Proof.
  intros w. split; [vm_compute; reflexivity|].
  destruct (heartbeat_detects_exit (X := Scripted) 1 0 w {| signal := true |}
              {| pid := 4242; returncode := None |}
              (set_sc_polls [Some (-9)]
                 (set_sc_communicate [Ok ([], boom, -9)] quiet))
              (-9) (set_sc_communicate [Ok ([], boom, -9)] quiet)
              [] boom (-9) quiet "boom" quiet)
    as (H1 & H2 & H3 & _); try reflexivity.
  - exists 1%nat. vm_compute. reflexivity.
  - split_and!; [exact H1|exact H2|exact H3].
Defined.

Lemma heartbeat_drain_times_out_witness :
  let w := run_ops [OpStart None; OpInitLvnf None] (world0 hanging) in
  (heartbeat 1 w).1 = Raise TimeoutExpired
  ∧ agent (heartbeat 1 w).2 = agent w.
Proof.
  intros w.
  destruct (heartbeat_drain_times_out (X := Scripted) 0 w {| signal := true |}
              {| pid := 4242; returncode := None |} (-9)
              quiet quiet quiet quiet)
    as (H1 & H2 & _); try reflexivity.
  split; [exact H1|exact H2].
Defined.

Lemma init_lvnf_running_witness :
  let w := (start None (world0 quiet)).2 in
  let v := (start None (world0 (set_sc_caps [Raise (OtherError "gone")]
                                  quiet))).2 in
  (init_lvnf None w).1 = Ok tt
  ∧ thread (self (init_lvnf None w).2) = Some {| signal := true |}
  ∧ (init_lvnf None v).1 = Raise (OtherError "gone")
  ∧ thread (self (init_lvnf None v).2) = None.
Proof.
  intros w v.
  destruct (init_lvnf_running (X := Scripted) None w
              {| pid := 4242; returncode := None |} quiet)
    as (_ & _ & Hok & _); [reflexivity|reflexivity|].
  destruct (init_lvnf_running (X := Scripted) None v
              {| pid := 4242; returncode := None |}
              (set_sc_caps [Raise (OtherError "gone")] quiet))
    as (_ & _ & _ & Hfail); [reflexivity|reflexivity|].
  assert ((init_lvnf None w).1 = Ok tt) as H1 by (vm_compute; reflexivity).
  assert ((init_lvnf None v).1 = Raise (OtherError "gone")) as H3
    by (vm_compute; reflexivity).
  split_and!; [exact H1|exact (proj1 (Hok H1))|exact H3|].
  exact (proj1 (Hfail _ H3)).
Defined.

Lemma to_dict_needs_process_witness :
  (to_dict vnf (world0 quiet)).1 = Raise (AttributeError "returncode")
  ∧ ∃ snap,
      to_dict vnf (start None (world0 quiet)).2
      = (Ok snap, (start None (world0 quiet)).2)
      ∧ d_returncode snap = None.
Proof.
  destruct (to_dict_needs_process (X := Scripted) vnf)
    as (_ & Hnone & _ & Hrun).
  split.
  - rewrite (Hnone (world0 quiet) eq_refl). reflexivity.
  - destruct (Hrun None (world0 quiet) eq_refl) as (snap & H1 & H2 & _).
    exists snap. split; [exact H1|exact H2].
Defined.

Lemma iface_names_distinct_witness :
  iface_name "br0" 3 0 ≠ iface_name "br0" 3 1.
Proof. apply (proj1 iface_names_distinct). lia. Defined.

Lemma read_handler_shape_witness :
  let w := world0 (set_sc_reads [Ok (200, "x=1" +:+ nl +:+ " y=2 " +:+ nl)]
                     quiet) in
  self (read_handler "cnt.count" w).2 = lvnf0
  ∧ ((200 = 200
      ∧ ∃ out, PList ["x=1"; "y=2"] = PList out
               ∧ Forall (λ line, strip line = line ∧ has_nl line = false) out)
     ∨ (200 ≠ 200 ∧ ∃ msg, PList ["x=1"; "y=2"] = PStr msg)).
Proof.
  intros w.
  apply (read_handler_shape (X := Scripted) "cnt.count" w 200
           (PList ["x=1"; "y=2"])).
  vm_compute. reflexivity.
Defined.
